(** * dynhttpsrv: an HTTP server whose routing table is swapped at run time

    A shallow embedding of [dynhttpsrv.go] (the variant with the unexported
    [swappableRouter]) and of its copy with exported names, followed by the
    properties of the endpoint registry, of the table compilation and of the
    swappable dispatcher.

    Layout: the Go run-time notions the program relies on ([Go]), the part of
    gorilla/mux the program calls ([mux]), the declarations the two files
    share, the two files ([Unexported], [Exported]), the interleaving model of
    a request racing with a swap ([Race]), and then the theorems. *)

From Stdlib Require Import ZArith Lia Ascii.
From stdpp Require Import base option list strings.

Local Open Scope string_scope.
Local Open Scope Z_scope.
Local Open Scope list_scope.

(** ** Go run-time notions *)

Module Go.

(** A slice: [None] is the nil slice, [Some l] a non-nil slice holding [l]
    ([Some []] is an empty, non-nil slice such as [[]string{}]). *)
Definition slice (A : Type) : Type := option (list A).

(** A pointer is nil or the address of an allocated object.  Go has no
    dangling pointers, so every address can be dereferenced. *)
Inductive pointer : Type :=
| null
| at_addr (a : positive).

(** The [error] interface: [None] is the nil error, [Some msg] the value
    made by [errors.New(msg)]. *)
Definition error : Type := option string.
Definition errors_New (msg : string) : error := Some msg.

(** What stops a call before its [return]. *)
Inductive fault : Type :=
| NilDereference      (* run-time panic: nil pointer dereference *)
| LockOfLocked        (* Lock on a mutex nobody else will release: blocks for ever *)
| UnlockOfUnlocked.   (* fatal error: unlock of unlocked mutex *)

Inductive result (A : Type) : Type :=
| Returns (a : A)
| Faults (f : fault).
Arguments Returns {A} a.
Arguments Faults {A} f.

(** One run of a piece of code from a state of type [S]: how it ended, the
    state it left, and the calls it made to the functions under watch, in
    order ([L] is the type of the call records). *)
Record run (L S A : Type) : Type := Run {
  res : result A;
  post : S;
  calls : list L
}.
Arguments Run {L S A} res post calls.
Arguments res {L S A} r.
Arguments post {L S A} r.
Arguments calls {L S A} r.

Definition M (L S A : Type) : Type := S → run L S A.

Definition ret {L S A} (a : A) : M L S A := λ s, Run (Returns a) s [].

Definition bind {L S A B} (m : M L S A) (k : A → M L S B) : M L S B :=
  λ s, let r := m s in
       match res r with
       | Returns a =>
           let r' := k a (post r) in
           Run (res r') (post r') (calls r ++ calls r')
       | Faults f => Run (Faults f) (post r) (calls r)
       end.

Definition get {L S} : M L S S := λ s, Run (Returns s) s [].
Definition put {L S} (s : S) : M L S unit := λ _, Run (Returns tt) s [].
Definition panic {L S A} (f : fault) : M L S A := λ s, Run (Faults f) s [].
Definition called {L S} (c : L) : M L S unit := λ s, Run (Returns tt) s [c].

(** Run [m] on the component of the state selected by [proj], writing the
    component back with [inj]: a method call through a pointer field. *)
Definition through {L S T A} (proj : S → T) (inj : T → S → S) (m : M L T A)
  : M L S A :=
  λ s, let r := m (proj s) in Run (res r) (inj (post r) s) (calls r).

(** [for _, x := range l { acc = body x acc }], where [body] may fault. *)
Fixpoint range {L S A X} (l : list X) (body : X → A → M L S A) (acc : A)
  : M L S A :=
  match l with
  | [] => ret acc
  | x :: rest => bind (body x acc) (range rest body)
  end.

(** [sync.Mutex]: [true] when locked.  Within one run nobody else releases
    the mutex, so [Lock] on a locked mutex never returns. *)
Definition Mutex : Type := bool.

Definition Lock {L} : M L Mutex unit :=
  λ locked, if locked then Run (Faults LockOfLocked) locked []
            else Run (Returns tt) true [].

Definition Unlock {L} : M L Mutex unit :=
  λ locked, if locked then Run (Returns tt) false []
            else Run (Faults UnlockOfUnlocked) locked [].

End Go.

Notation "x <<- y ; z" := (Go.bind y (λ x, z))
  (at level 20, y at level 100, z at level 200, only parsing).

Global Instance pointer_eq_dec : EqDecision Go.pointer.
Proof. solve_decision. Defined.

(** ** The part of gorilla/mux the program calls

    mux is an external library: its matching algorithm is not modelled.  A
    router is modelled by what the program can put into it: its
    configuration and, in registration order, its routes, each with the
    matchers and the handler mux has kept for it and with the mark of the
    error mux has recorded for it, if any.

    Two things are taken from outside, as the fields of [Library]: Go's
    [strings.ToUpper], and the verdict of mux's template parser on a template
    that has variables (balanced braces, for each variable a name and a
    pattern that compiles).  A template on which that parser panics (a
    pattern with a capturing group) is not modelled: the verdict has two
    values. *)

Module mux.

Class Library : Type := {
  strings_ToUpper : string → string;
  compiles : string → bool
}.

(** The template has a brace, that is, mux looks for variables in it. *)
Fixpoint has_brace (tpl : string) : bool :=
  match tpl with
  | EmptyString => false
  | String c rest =>
      Ascii.eqb c "{"%char || Ascii.eqb c "}"%char || has_brace rest
  end.

(** Whether mux takes [tpl] as the template of a path or path-prefix
    matcher.  A template that is not empty and does not start with a slash is
    refused; one that starts with a slash and has no brace is taken; for the
    others (and for the empty template, on which versions of mux differ) the
    verdict is that of the parser. *)
Definition template_ok `{Library} (tpl : string) : bool :=
  match tpl with
  | EmptyString => compiles tpl
  | String c _ =>
      if Ascii.eqb c "/"%char
      then (if has_brace tpl then compiles tpl else true)
      else false
  end.

Section Routes.
Context {Handler : Type} `{Library}.

Inductive matcher : Type :=
| PathPrefixMatcher (tpl : string)
| PathMatcher (tpl : string)
| MethodMatcher (methods : list string).

Record Route : Type := mkRoute {
  routeStrictSlash : bool;          (* configuration copied from the router *)
  matchers : list matcher;
  handler : option Handler;
  routeErr : bool                   (* [err != nil] *)
}.

Record Router : Type := mkRouter {
  strictSlash : bool;
  routes : list Route
}.

(** [mux.NewRouter()] *)
Definition NewRouter : Router := mkRouter false [].

(** [Router.StrictSlash(value)] *)
Definition StrictSlash (value : bool) (r : Router) : Router :=
  mkRouter value (routes r).

(** A [*Route] is the position of the route in its router. *)
Definition RouteRef : Type := nat.

(** [Router.NewRoute()]: appends an empty route carrying the router's
    configuration and returns it. *)
Definition NewRoute (r : Router) : Router * RouteRef :=
  (mkRouter (strictSlash r) (routes r ++ [mkRoute (strictSlash r) [] None false]),
   length (routes r)).

(** A route that has an error takes no further matcher and no handler. *)
Definition addMatcher (m : matcher) (rt : Route) : Route :=
  if routeErr rt then rt
  else mkRoute (routeStrictSlash rt) (matchers rt ++ [m]) (handler rt) false.

Definition setHandler (f : Handler) (rt : Route) : Route :=
  if routeErr rt then rt
  else mkRoute (routeStrictSlash rt) (matchers rt) (Some f) false.

(** The template of a path or path-prefix matcher is checked first; when it
    is refused the route records the error and takes no matcher. *)
Definition addRegexpMatcher (m : matcher) (tpl : string) (rt : Route) : Route :=
  if routeErr rt then rt
  else if template_ok tpl then addMatcher m rt
  else mkRoute (routeStrictSlash rt) (matchers rt) (handler rt) true.

Definition onRoute (g : Route → Route) (c : Router * RouteRef)
  : Router * RouteRef :=
  (mkRouter (strictSlash c.1) (alter g c.2 (routes c.1)), c.2).

(** [Route.PathPrefix(tpl)], [Route.Path(tpl)],
    [Route.HandlerFunc(f)], [Route.Methods(methods...)]: each updates
    the route in place and returns it, so that calls chain.  [Methods]
    upper-cases the names it is given.  (It upper-cases them in the slice it
    is given, which is the endpoint's: the endpoints of the model keep the
    names as their creator wrote them, and every registration upper-cases
    them again.) *)
Definition Route_PathPrefix (tpl : string) :=
  onRoute (addRegexpMatcher (PathPrefixMatcher tpl) tpl).
Definition Route_Path (tpl : string) :=
  onRoute (addRegexpMatcher (PathMatcher tpl) tpl).
Definition HandlerFunc (f : Handler) := onRoute (setHandler f).
Definition Methods (methods : list string) :=
  onRoute (addMatcher (MethodMatcher (strings_ToUpper <$> methods))).

(** [Router.PathPrefix(tpl)] is [r.NewRoute().PathPrefix(tpl)] and
    [Router.HandleFunc(path, f)] is
    [r.NewRoute().Path(path).HandlerFunc(f)]. *)
Definition PathPrefix (tpl : string) (r : Router) : Router * RouteRef :=
  Route_PathPrefix tpl (NewRoute r).
Definition HandleFunc (path : string) (f : Handler) (r : Router)
  : Router * RouteRef :=
  HandlerFunc f (Route_Path path (NewRoute r)).

(** The template a matcher was made from. *)
Definition template_of (m : matcher) : option string :=
  match m with
  | PathPrefixMatcher tpl | PathMatcher tpl => Some tpl
  | MethodMatcher _ => None
  end.

End Routes.
Arguments Route : clear implicits.
Arguments Router : clear implicits.
End mux.

(** ** Declarations the two files share *)

(** [type Endpoint struct], lines 39-43 of both files.  [Func] is the type of
    handler functions.  The two slices are values: they are taken not to
    share storage with each other or with the slices of another endpoint. *)
Record Endpoint (Func : Type) : Type := mkEndpoint {
  Methods : Go.slice string;
  Paths : Go.slice string;
  Handler : Func
}.
Arguments mkEndpoint {Func} Methods Paths Handler.
Arguments Methods {Func} e.
Arguments Paths {Func} e.
Arguments Handler {Func} e.

(** The calls under watch: each call of [reloadEndpoints] and each call of
    [swap], with the router it was given. *)
Inductive call (Func : Type) : Type :=
| reload_call
| swap_call (newRouter : mux.Router Func).
Arguments reload_call {Func}.
Arguments swap_call {Func} newRouter.

(** ** dynhttpsrv.go *)

Module Unexported.
Section File.
Context {Func Request Response : Type} {lib : mux.Library}.
(** [Router.ServeHTTP] of mux: matching a request against a router and
    running the handler found, as a function of the router and the request. *)
Context (mux_ServeHTTP : mux.Router Func → Request → Response).
(** The endpoints allocated by the callers, by address. *)
Context (heap : positive → Endpoint Func).

Local Abbreviation M := (Go.M (call Func)).

(** The struct [sr] points to; [mu] is the state of the mutex [sr.mu]
    points to, which every copy of the struct shares. *)
Record swappableRouter : Type := mkSwappableRouter {
  mu : Go.Mutex;
  router : mux.Router Func
}.

Definition set_mu (m : Go.Mutex) (sr : swappableRouter) : swappableRouter :=
  mkSwappableRouter m (router sr).
Definition set_router (r : mux.Router Func) (sr : swappableRouter)
  : swappableRouter :=
  mkSwappableRouter (mu sr) r.

Definition createSwappableRouter (router : mux.Router Func) : swappableRouter :=
  mkSwappableRouter false router.

(** Pointer receiver: the state is the struct shared with the server. *)
Definition swap (newRouter : mux.Router Func) : M swappableRouter unit :=
  _ <<- Go.called (swap_call newRouter);
  _ <<- Go.through mu set_mu Go.Lock;
  sr <<- Go.get;
  _ <<- Go.put (set_router newRouter sr);
  Go.through mu set_mu Go.Unlock.

(** Value receiver: [sr] is a copy of the struct made when the method is
    called; [sr.mu] still points to the shared mutex. *)
Definition ServeHTTP (r : Request) : M swappableRouter Response :=
  sr <<- Go.get;
  _ <<- Go.through mu set_mu Go.Lock;
  let router := router sr in
  _ <<- Go.through mu set_mu Go.Unlock;
  Go.ret (mux_ServeHTTP router r).

(** [Router] is the struct the field points to: the one the server
    dispatches through. *)
Record DynHttpSrv : Type := mkDynHttpSrv {
  Router : swappableRouter;
  Endpoints : list Go.pointer
}.

Definition set_Router (sr : swappableRouter) (dhs : DynHttpSrv) : DynHttpSrv :=
  mkDynHttpSrv sr (Endpoints dhs).
Definition set_Endpoints (l : list Go.pointer) (dhs : DynHttpSrv) : DynHttpSrv :=
  mkDynHttpSrv (Router dhs) l.

(** [New], without the two goroutines that start and stop the transport. *)
Definition New : DynHttpSrv :=
  mkDynHttpSrv (createSwappableRouter (mux.StrictSlash true mux.NewRouter)) [].

(** Lines 82-88 and 98-104: [pos] after the search loop, [i] being the
    index of the head of [rest]. *)
Fixpoint search (endpoint : Go.pointer) (i : Z) (rest : list Go.pointer) : Z :=
  match rest with
  | [] => -1
  | existingEndpoint :: rest' =>
      if decide (existingEndpoint = endpoint) then i
      else search endpoint (i + 1) rest'
  end.

Definition deref {S} (p : Go.pointer) : M S (Endpoint Func) :=
  match p with
  | Go.null => Go.panic Go.NilDereference
  | Go.at_addr a => Go.ret (heap a)
  end.

(** Lines 116-130: the body of the loop over the endpoints. *)
Definition register (endpoint : Endpoint Func) (newRouter : mux.Router Func)
  : mux.Router Func :=
  match Paths endpoint with
  | None =>
      match Methods endpoint with
      | None =>
          (mux.HandlerFunc (Handler endpoint) (mux.PathPrefix "/" newRouter)).1
      | Some methods =>
          (mux.Methods methods
             (mux.HandlerFunc (Handler endpoint) (mux.PathPrefix "/" newRouter))).1
      end
  | Some paths =>
      foldl (λ newRouter path,
               match Methods endpoint with
               | None => (mux.HandleFunc path (Handler endpoint) newRouter).1
               | Some methods =>
                   (mux.Methods methods
                      (mux.HandleFunc path (Handler endpoint) newRouter)).1
               end) newRouter paths
  end.

Definition reloadEndpoints : M DynHttpSrv unit :=
  _ <<- Go.called reload_call;
  dhs <<- Go.get;
  newRouter <<- Go.range (Endpoints dhs)
                 (λ endpoint newRouter,
                    e <<- deref endpoint; Go.ret (register e newRouter))
                 (mux.StrictSlash true mux.NewRouter);
  Go.through Router set_Router (swap newRouter).

Definition AddEndpoint (endpoint : Go.pointer) : M DynHttpSrv Go.error :=
  dhs <<- Go.get;
  let pos := search endpoint 0 (Endpoints dhs) in
  if negb (pos =? -1)%Z then Go.ret (Go.errors_New "endpoint already added")
  else
    _ <<- Go.put (set_Endpoints (Endpoints dhs ++ [endpoint]) dhs);
    _ <<- reloadEndpoints;
    Go.ret None.

Definition DelEndpoint (endpoint : Go.pointer) : M DynHttpSrv Go.error :=
  dhs <<- Go.get;
  let pos := search endpoint 0 (Endpoints dhs) in
  if (pos =? -1)%Z then Go.ret (Go.errors_New "endpoint not found")
  else
    _ <<- Go.put (set_Endpoints
                    (take (Z.to_nat pos) (Endpoints dhs)
                     ++ drop (Z.to_nat (pos + 1)) (Endpoints dhs)) dhs);
    _ <<- reloadEndpoints;
    Go.ret None.

End File.
End Unexported.

(** ** The copy with exported names

    The second file differs from the first in five identifiers:
    [SwappableRouter], [CreateSwappableRouter], [Swap], [ReloadEndpoints] and
    the type of the field [Router]. *)

Module Exported.
Section File.
Context {Func Request Response : Type} {lib : mux.Library}.
(** [Router.ServeHTTP] of mux: matching a request against a router and
    running the handler found, as a function of the router and the request. *)
Context (mux_ServeHTTP : mux.Router Func → Request → Response).
(** The endpoints allocated by the callers, by address. *)
Context (heap : positive → Endpoint Func).

Local Abbreviation M := (Go.M (call Func)).

(** The struct [sr] points to; [mu] is the state of the mutex [sr.mu]
    points to, which every copy of the struct shares. *)
Record SwappableRouter : Type := mkSwappableRouter {
  mu : Go.Mutex;
  router : mux.Router Func
}.

Definition set_mu (m : Go.Mutex) (sr : SwappableRouter) : SwappableRouter :=
  mkSwappableRouter m (router sr).
Definition set_router (r : mux.Router Func) (sr : SwappableRouter)
  : SwappableRouter :=
  mkSwappableRouter (mu sr) r.

Definition CreateSwappableRouter (router : mux.Router Func) : SwappableRouter :=
  mkSwappableRouter false router.

(** Pointer receiver: the state is the struct shared with the server. *)
Definition Swap (newRouter : mux.Router Func) : M SwappableRouter unit :=
  _ <<- Go.called (swap_call newRouter);
  _ <<- Go.through mu set_mu Go.Lock;
  sr <<- Go.get;
  _ <<- Go.put (set_router newRouter sr);
  Go.through mu set_mu Go.Unlock.

(** Value receiver: [sr] is a copy of the struct made when the method is
    called; [sr.mu] still points to the shared mutex. *)
Definition ServeHTTP (r : Request) : M SwappableRouter Response :=
  sr <<- Go.get;
  _ <<- Go.through mu set_mu Go.Lock;
  let router := router sr in
  _ <<- Go.through mu set_mu Go.Unlock;
  Go.ret (mux_ServeHTTP router r).

(** [Router] is the struct the field points to: the one the server
    dispatches through. *)
Record DynHttpSrv : Type := mkDynHttpSrv {
  Router : SwappableRouter;
  Endpoints : list Go.pointer
}.

Definition set_Router (sr : SwappableRouter) (dhs : DynHttpSrv) : DynHttpSrv :=
  mkDynHttpSrv sr (Endpoints dhs).
Definition set_Endpoints (l : list Go.pointer) (dhs : DynHttpSrv) : DynHttpSrv :=
  mkDynHttpSrv (Router dhs) l.

(** [New], without the two goroutines that start and stop the transport. *)
Definition New : DynHttpSrv :=
  mkDynHttpSrv (CreateSwappableRouter (mux.StrictSlash true mux.NewRouter)) [].

(** Lines 82-88 and 98-104: [pos] after the search loop, [i] being the
    index of the head of [rest]. *)
Fixpoint search (endpoint : Go.pointer) (i : Z) (rest : list Go.pointer) : Z :=
  match rest with
  | [] => -1
  | existingEndpoint :: rest' =>
      if decide (existingEndpoint = endpoint) then i
      else search endpoint (i + 1) rest'
  end.

Definition deref {S} (p : Go.pointer) : M S (Endpoint Func) :=
  match p with
  | Go.null => Go.panic Go.NilDereference
  | Go.at_addr a => Go.ret (heap a)
  end.

(** Lines 116-130: the body of the loop over the endpoints. *)
Definition register (endpoint : Endpoint Func) (newRouter : mux.Router Func)
  : mux.Router Func :=
  match Paths endpoint with
  | None =>
      match Methods endpoint with
      | None =>
          (mux.HandlerFunc (Handler endpoint) (mux.PathPrefix "/" newRouter)).1
      | Some methods =>
          (mux.Methods methods
             (mux.HandlerFunc (Handler endpoint) (mux.PathPrefix "/" newRouter))).1
      end
  | Some paths =>
      foldl (λ newRouter path,
               match Methods endpoint with
               | None => (mux.HandleFunc path (Handler endpoint) newRouter).1
               | Some methods =>
                   (mux.Methods methods
                      (mux.HandleFunc path (Handler endpoint) newRouter)).1
               end) newRouter paths
  end.

Definition ReloadEndpoints : M DynHttpSrv unit :=
  _ <<- Go.called reload_call;
  dhs <<- Go.get;
  newRouter <<- Go.range (Endpoints dhs)
                 (λ endpoint newRouter,
                    e <<- deref endpoint; Go.ret (register e newRouter))
                 (mux.StrictSlash true mux.NewRouter);
  Go.through Router set_Router (Swap newRouter).

Definition AddEndpoint (endpoint : Go.pointer) : M DynHttpSrv Go.error :=
  dhs <<- Go.get;
  let pos := search endpoint 0 (Endpoints dhs) in
  if negb (pos =? -1)%Z then Go.ret (Go.errors_New "endpoint already added")
  else
    _ <<- Go.put (set_Endpoints (Endpoints dhs ++ [endpoint]) dhs);
    _ <<- ReloadEndpoints;
    Go.ret None.

Definition DelEndpoint (endpoint : Go.pointer) : M DynHttpSrv Go.error :=
  dhs <<- Go.get;
  let pos := search endpoint 0 (Endpoints dhs) in
  if (pos =? -1)%Z then Go.ret (Go.errors_New "endpoint not found")
  else
    _ <<- Go.put (set_Endpoints
                    (take (Z.to_nat pos) (Endpoints dhs)
                     ++ drop (Z.to_nat (pos + 1)) (Endpoints dhs)) dhs);
    _ <<- ReloadEndpoints;
    Go.ret None.

End File.
End Exported.
(** ** A request racing with a swap

    One call of [ServeHTTP] (made by the server through the pointer it holds)
    and one call of [swap] run on the same [swappableRouter] of
    [dynhttpsrv.go], their statements interleaved in any order.  A step is one
    statement; a load or a store of the pointer-sized field [router] is one
    step.  The load of [ServeHTTP] is not ordered with the store of [swap] by
    the mutex (it is the copy of the receiver); it returns one of the values
    stored, here the one the schedule puts last before it.  That a load
    returns the old or the new value, whole, is what the model stands for;
    which of the two a load racing with the store returns is the schedule's
    choice and no property is drawn from it. *)

Module Race.
Section Threads.
Context {Func Request Response : Type}.
Context (mux_ServeHTTP : mux.Router Func → Request → Response).
Context (r : Request) (newRouter : mux.Router Func).

Local Abbreviation swappableRouter := (@Unexported.swappableRouter Func).
Local Abbreviation Router := (mux.Router Func).

(** Where the call of [ServeHTTP] stands: the line it runs next, and its
    locals. *)
Inductive serving : Type :=
| AtCall                                  (* the receiver is not copied yet *)
| AtLock (sr_router : Router)             (* line 33, [sr] being the copy *)
| AtRead (sr_router : Router)             (* line 34 *)
| AtUnlock (router : Router)              (* line 35 *)
| AtDelegate (router : Router)            (* line 36 *)
| Served (router : Router) (response : Response).

(** Where the call of [swap] stands. *)
Inductive swapping : Type :=
| AtSwapLock                              (* line 27 *)
| AtAssign                                (* line 28 *)
| AtSwapUnlock                            (* line 29 *)
| Swapped.

Inductive action : Type :=
| LoadShared (current : Router)       (* read of the shared field [router] *)
| StoreShared (new : Router)         (* write of the shared field [router] *)
| Acquire
| Release
| ReadCopy (router : Router)    (* read of the field of the receiver copy *)
| Delegate (router : Router) (request : Request).

Inductive thread : Type := dispatcher | swapper.

Record config : Type := mkConfig {
  shared : swappableRouter;
  serve : serving;
  swp : swapping;
  trace : list (thread * action)
}.

Definition step_ServeHTTP (sh : swappableRouter) (pc : serving)
  : option (action * swappableRouter * serving) :=
  match pc with
  | AtCall =>
      Some (LoadShared (Unexported.router sh), sh, AtLock (Unexported.router sh))
  | AtLock c =>
      if Unexported.mu sh then None
      else Some (Acquire, Unexported.set_mu true sh, AtRead c)
  | AtRead c => Some (ReadCopy c, sh, AtUnlock c)
  | AtUnlock c =>
      if Unexported.mu sh
      then Some (Release, Unexported.set_mu false sh, AtDelegate c)
      else None
  | AtDelegate c => Some (Delegate c r, sh, Served c (mux_ServeHTTP c r))
  | Served _ _ => None
  end.

Definition step_swap (sh : swappableRouter) (pc : swapping)
  : option (action * swappableRouter * swapping) :=
  match pc with
  | AtSwapLock =>
      if Unexported.mu sh then None
      else Some (Acquire, Unexported.set_mu true sh, AtAssign)
  | AtAssign =>
      Some (StoreShared newRouter, Unexported.set_router newRouter sh, AtSwapUnlock)
  | AtSwapUnlock =>
      if Unexported.mu sh
      then Some (Release, Unexported.set_mu false sh, Swapped)
      else None
  | Swapped => None
  end.

(** One step of thread [t]; [None] when [t] has returned, waits for the
    mutex, or would unlock a mutex that is not locked. *)
Definition step (t : thread) (c : config) : option config :=
  match t with
  | dispatcher =>
      match step_ServeHTTP (shared c) (serve c) with
      | Some (a, sh, pc) =>
          Some (mkConfig sh pc (swp c) (trace c ++ [(dispatcher, a)]))
      | None => None
      end
  | swapper =>
      match step_swap (shared c) (swp c) with
      | Some (a, sh, pc) =>
          Some (mkConfig sh (serve c) pc (trace c ++ [(swapper, a)]))
      | None => None
      end
  end.

Fixpoint run (schedule : list thread) (c : config) : option config :=
  match schedule with
  | [] => Some c
  | t :: rest =>
      match step t c with
      | Some c' => run rest c'
      | None => None
      end
  end.

Definition start (oldRouter : Router) : config :=
  mkConfig (Unexported.createSwappableRouter oldRouter) AtCall AtSwapLock [].

(** The table reference the call of [ServeHTTP] holds, once it has one. *)
Definition captured (pc : serving) : option Router :=
  match pc with
  | AtCall => None
  | AtLock c | AtRead c | AtUnlock c | AtDelegate c | Served c _ => Some c
  end.

Definition response (pc : serving) : option Response :=
  match pc with
  | Served _ resp => Some resp
  | _ => None
  end.

Definition finished (c : config) : bool :=
  match serve c, swp c with
  | Served _ _, Swapped => true
  | _, _ => false
  end.

(** The actions of thread [t] in a trace, in order. *)
Definition actions_of (t : thread) (tr : list (thread * action)) : list action :=
  omap (λ e, match e.1, t with
             | dispatcher, dispatcher | swapper, swapper => Some e.2
             | _, _ => None
             end) tr.

(** The actions a call of [ServeHTTP] standing at [pc] has performed. *)
Definition performed (pc : serving) : list action :=
  match pc with
  | AtCall => []
  | AtLock c => [LoadShared c]
  | AtRead c => [LoadShared c; Acquire]
  | AtUnlock c => [LoadShared c; Acquire; ReadCopy c]
  | AtDelegate c => [LoadShared c; Acquire; ReadCopy c; Release]
  | Served c _ => [LoadShared c; Acquire; ReadCopy c; Release; Delegate c r]
  end.

(** Between its [Lock] and its [Unlock]. *)
Definition serving_locked (pc : serving) : bool :=
  match pc with
  | AtRead _ | AtUnlock _ => true
  | _ => false
  end.

Definition swapping_locked (pc : swapping) : bool :=
  match pc with
  | AtAssign | AtSwapUnlock => true
  | _ => false
  end.

(** The value of the shared field [router] after the stores of a trace. *)
Definition current_after (oldRouter : Router) (tr : list (thread * action))
  : Router :=
  foldl (λ cur e, match e.2 with StoreShared new => new | _ => cur end) oldRouter tr.

(** Statements left to run. *)
Definition remaining (c : config) : nat :=
  (match serve c with
   | AtCall => 5 | AtLock _ => 4 | AtRead _ => 3 | AtUnlock _ => 2
   | AtDelegate _ => 1 | Served _ _ => 0
   end
   + match swp c with
     | AtSwapLock => 3 | AtAssign => 2 | AtSwapUnlock => 1 | Swapped => 0
     end)%nat.

(** What holds of every configuration reached from [start oldRouter]. *)
Definition consistent (oldRouter : Router) (c : config) : Prop :=
  Unexported.router (shared c) = current_after oldRouter (trace c)
  ∧ (Unexported.router (shared c) = oldRouter
     ∨ Unexported.router (shared c) = newRouter)
  ∧ Unexported.mu (shared c)
    = serving_locked (serve c) || swapping_locked (swp c)
  ∧ serving_locked (serve c) && swapping_locked (swp c) = false
  ∧ (∀ T, captured (serve c) = Some T →
          (T = oldRouter ∨ T = newRouter)
          ∧ ∃ before later,
              trace c = before ++ (dispatcher, LoadShared T) :: later
              ∧ T = current_after oldRouter before)
  ∧ (∀ T resp, serve c = Served T resp → resp = mux_ServeHTTP T r)
  ∧ actions_of dispatcher (trace c) = performed (serve c).

End Threads.
End Race.

(** ** The table the spec describes

    Written from the words of the spec (4.2, table-compilation policy), to be
    compared with what [reloadEndpoints] builds: which registrations are
    made, in which order.  What becomes of one registration is mux's: a route
    bound to the handler when mux takes the template, a route that only
    carries the error when it refuses it, and method names upper-cased. *)

Module Spec.
Section Table.
Context {Func : Type} {lib : mux.Library}.

(** "No methods specified: match any HTTP method"; otherwise the route is
    restricted to the given method set. *)
Definition method_restriction (e : Endpoint Func) : list mux.matcher :=
  match Methods e with
  | None => []
  | Some methods => [mux.MethodMatcher (mux.strings_ToUpper <$> methods)]
  end.

(** The route a router with strict-slash setting [ss] has for the
    registration of a path rule for the endpoint. *)
Definition route_in (ss : bool) (e : Endpoint Func) (rule : mux.matcher)
  : mux.Route Func :=
  if default true (mux.template_ok <$> mux.template_of rule)
  then mux.mkRoute ss (rule :: method_restriction e) (Some (Handler e)) false
  else mux.mkRoute ss [] None true.

(** The routers of the program have the strict-slash setting. *)
Definition route_for (e : Endpoint Func) (rule : mux.matcher) : mux.Route Func :=
  route_in true e rule.

(** "No path patterns specified: a catch-all prefix match on the root path.
    Path patterns specified: register each path individually against the same
    handler." *)
Definition rules_of (e : Endpoint Func) : list mux.matcher :=
  match Paths e with
  | None => [mux.PathPrefixMatcher "/"]
  | Some paths => mux.PathMatcher <$> paths
  end.

Definition routes_of (e : Endpoint Func) : list (mux.Route Func) :=
  route_for e <$> rules_of e.

(** "Constructs a new RoutingTable from the entire current endpoint list, in
    list order." *)
Definition table (endpoints : list (Endpoint Func)) : mux.Router Func :=
  mux.mkRouter true (endpoints ≫= routes_of).

(** The table read from the words of the spec alone, mux left out: every
    listed path gets a route bound to the handler, restricted to the methods
    as the endpoint gives them. *)
Definition claimed_route_for (e : Endpoint Func) (rule : mux.matcher)
  : mux.Route Func :=
  mux.mkRoute true
    (rule :: match Methods e with
             | None => []
             | Some methods => [mux.MethodMatcher methods]
             end)
    (Some (Handler e)) false.

Definition claimed_table (endpoints : list (Endpoint Func)) : mux.Router Func :=
  mux.mkRouter true (endpoints ≫= λ e, claimed_route_for e <$> rules_of e).

(** An endpoint for which the two agree: mux takes each of its paths and its
    method names are in upper case already. *)
Definition well_formed (e : Endpoint Func) : Prop :=
  (∀ paths path, Paths e = Some paths → path ∈ paths →
                 mux.template_ok path = true)
  ∧ (∀ methods, Methods e = Some methods →
                mux.strings_ToUpper <$> methods = methods).

(** The endpoint after mux has written the upper-cased names back. *)
Definition written_back (e : Endpoint Func) : Endpoint Func :=
  mkEndpoint (fmap (M := list) mux.strings_ToUpper <$> Methods e)
    (Paths e) (Handler e).

End Table.
End Spec.

(** ** Sequences of registry operations *)

Section Operations.
Context {Func : Type} {lib : mux.Library} (heap : positive → Endpoint Func).

Inductive operation : Type :=
| Add (endpoint : Go.pointer)
| Del (endpoint : Go.pointer).

Definition perform (o : operation)
  : Go.M (call Func) (@Unexported.DynHttpSrv Func) Go.error :=
  match o with
  | Add endpoint => Unexported.AddEndpoint heap endpoint
  | Del endpoint => Unexported.DelEndpoint heap endpoint
  end.

(** The registry after a sequence of calls.  A call that panics leaves the
    state it had reached; the sequence goes on from there, as it does when
    the caller recovers. *)
Definition after (ops : list operation) (dhs : Unexported.DynHttpSrv)
  : Unexported.DynHttpSrv :=
  foldl (λ dhs o, Go.post (perform o dhs)) dhs ops.

(** The outcome of a mutation that went past its check: the run of
    [reloadEndpoints] on the registry with the new list, returning nil. *)
Definition then_reload (l : list Go.pointer) (dhs : Unexported.DynHttpSrv)
  : Go.run (call Func) Unexported.DynHttpSrv Go.error :=
  let r := Unexported.reloadEndpoints heap (Unexported.set_Endpoints l dhs) in
  Go.Run (match Go.res r with
          | Go.Returns _ => Go.Returns None
          | Go.Faults f => Go.Faults f
          end) (Go.post r) (Go.calls r).

(** The endpoints behind a list of non-nil pointers. *)
Definition pointee (p : Go.pointer) : option (Endpoint Func) :=
  match p with
  | Go.null => None
  | Go.at_addr a => Some (heap a)
  end.

Definition pointees (l : list Go.pointer) : list (Endpoint Func) :=
  omap pointee l.

End Operations.

(** ** Registry states between calls *)

Section States.
Context {Func : Type} {lib : mux.Library} (heap : positive → Endpoint Func).

(** Between calls the mutex is free and the list holds no nil pointer: a
    call that returns leaves the registry so, and [New] makes it so. *)
Definition settled (dhs : @Unexported.DynHttpSrv Func) : Prop :=
  Unexported.mu (Unexported.Router dhs) = false
  ∧ (Go.null ∉ Unexported.Endpoints dhs).

(** The dispatcher holds the table of the current list. *)
Definition in_sync (dhs : @Unexported.DynHttpSrv Func) : Prop :=
  Unexported.router (Unexported.Router dhs)
  = Spec.table (pointees heap (Unexported.Endpoints dhs)).

(** Every call of the sequence returns. *)
Fixpoint all_return (ops : list operation) (dhs : @Unexported.DynHttpSrv Func)
  : Prop :=
  match ops with
  | [] => True
  | o :: rest =>
      (∃ err, Go.res (perform heap o dhs) = Go.Returns err)
      ∧ all_return rest (Go.post (perform heap o dhs))
  end.

(** The routes one endpoint puts into a fresh router of the program. *)
Definition registered_by (e : Endpoint Func) : list (mux.Route Func) :=
  mux.routes (Unexported.register e (mux.StrictSlash true mux.NewRouter)).

End States.

(** ** The two files side by side *)

Section SideBySide.
Context {Func : Type}.

Definition exported_router (sr : @Unexported.swappableRouter Func)
  : @Exported.SwappableRouter Func :=
  Exported.mkSwappableRouter (Unexported.mu sr) (Unexported.router sr).

Definition exported (dhs : @Unexported.DynHttpSrv Func)
  : @Exported.DynHttpSrv Func :=
  Exported.mkDynHttpSrv (exported_router (Unexported.Router dhs))
    (Unexported.Endpoints dhs).

(** The same run, its final state read in the types of the second file. *)
Definition seen_as {L S S' A} (f : S → S') (r : Go.run L S A) : Go.run L S' A :=
  Go.Run (Go.res r) (f (Go.post r)) (Go.calls r).

End SideBySide.

(** ** Sample data *)

Module Sample.

Definition Func : Type := string.
Definition Request : Type := string * string.      (* method, path *)
Definition Response : Type := string.

Definition A : Endpoint Func := mkEndpoint (Some ["GET"]) (Some ["/a"]) "A".
Definition B : Endpoint Func := mkEndpoint None None "B".
Definition C : Endpoint Func := mkEndpoint (Some ["POST"]) (Some []) "C".

Definition heap (a : positive) : Endpoint Func :=
  match a with
  | 1%positive => A
  | 2%positive => B
  | _ => C
  end.

(** For the samples [strings.ToUpper] is the upper-casing of the ASCII
    letters, and the parser of mux takes a template with variables when its
    braces are balanced. *)
Definition upper_char (c : ascii) : ascii :=
  let n := nat_of_ascii c in
  if ((97 <=? n) && (n <=? 122))%nat then ascii_of_nat (n - 32) else c.

Fixpoint upper (s : string) : string :=
  match s with
  | EmptyString => EmptyString
  | String c rest => String (upper_char c) (upper rest)
  end.

Fixpoint balanced (level : nat) (tpl : string) : bool :=
  match tpl with
  | EmptyString => Nat.eqb level 0
  | String c rest =>
      if Ascii.eqb c "{"%char then balanced (S level) rest
      else if Ascii.eqb c "}"%char
           then match level with
                | O => false
                | S below => balanced below rest
                end
           else balanced level rest
  end.

#[export] Instance library : mux.Library :=
  {| mux.strings_ToUpper := upper; mux.compiles := balanced 0 |}.

Definition pA : Go.pointer := Go.at_addr 1.
Definition pB : Go.pointer := Go.at_addr 2.
Definition pC : Go.pointer := Go.at_addr 3.

(** The registry after [AddEndpoint(A)] and [AddEndpoint(B)]. *)
Definition registry : @Unexported.DynHttpSrv Func :=
  after heap [Add pA; Add pB] Unexported.New.

(** A stand-in for mux's matching, only to run the examples: the handler of
    the first route answers. *)
Definition first_route (rt : mux.Router Func) (req : Request) : Response :=
  match mux.routes rt with
  | route :: _ => default "404" (mux.handler route)
  | [] => "404"
  end.

Definition oldTable : mux.Router Func := Spec.table [A].
Definition newTable : mux.Router Func := Spec.table [B; A].

Definition request : Request := ("GET", "/a").

(** The dispatcher has loaded [oldTable]; [swap(newTable)] holds the mutex. *)
Definition midway : @Race.config Func Request Response :=
  Race.mkConfig (Unexported.mkSwappableRouter true oldTable)
    (Race.AtLock oldTable) Race.AtAssign
    [(Race.dispatcher, Race.LoadShared oldTable); (Race.swapper, Race.Acquire)].

(** The call of [ServeHTTP] returned before [swap(newTable)] started. *)
Definition served_first : @Race.config Func Request Response :=
  Race.mkConfig (Unexported.mkSwappableRouter false oldTable)
    (Race.Served oldTable "A") Race.AtSwapLock
    [(Race.dispatcher, Race.LoadShared oldTable); (Race.dispatcher, Race.Acquire);
     (Race.dispatcher, Race.ReadCopy oldTable); (Race.dispatcher, Race.Release);
     (Race.dispatcher, Race.Delegate oldTable request)].

End Sample.

(** ** Sequences of operations on the copy with exported names *)

Section ExportedOperations.
Context {Func : Type} {lib : mux.Library} (heap : positive → Endpoint Func).

Definition perform_exported (o : operation)
  : Go.M (call Func) (@Exported.DynHttpSrv Func) Go.error :=
  match o with
  | Add endpoint => Exported.AddEndpoint heap endpoint
  | Del endpoint => Exported.DelEndpoint heap endpoint
  end.

Definition after_exported (ops : list operation) (dhs : Exported.DynHttpSrv)
  : Exported.DynHttpSrv :=
  foldl (λ dhs o, Go.post (perform_exported o dhs)) dhs ops.

End ExportedOperations.

(** ** Which table the shared field holds, by where [swap] stands *)

Section SwapProgress.
Context {Func : Type}.

(** [swap] has run its assignment (line 28). *)
Definition assigned (pc : Race.swapping) : bool :=
  match pc with
  | Race.AtSwapLock | Race.AtAssign => false
  | Race.AtSwapUnlock | Race.Swapped => true
  end.

Definition held_at (oldRouter newRouter : mux.Router Func) (pc : Race.swapping)
  : mux.Router Func :=
  if assigned pc then newRouter else oldRouter.

End SwapProgress.

(** ** The goroutine of [New] that stops the server

    Lines 65-73 of both files: the loop polls [ctx.Err()] once a second and
    calls [srv.Shutdown] when it reads [context.Canceled].  The context is
    given by what [ctx.Err()] returns at each successive poll. *)

Module Watcher.

Inductive ctx_err : Type :=
| no_error                (* nil: the context is not done *)
| Canceled                (* context.Canceled *)
| DeadlineExceeded.       (* context.DeadlineExceeded *)

Inductive event : Type :=
| Shutdown                (* srv.Shutdown(context.Background()) *)
| Sleep.                  (* time.Sleep(1 * time.Second) *)

(** What the loop does over the polls given, and whether it has left the
    loop ([break]) by the end of them. *)
Fixpoint watch (polls : list ctx_err) : list event * bool :=
  match polls with
  | [] => ([], false)
  | Canceled :: _ => ([Shutdown], true)
  | _ :: later => let '(events, exited) := watch later in (Sleep :: events, exited)
  end.

(** A context reports nil until it is done and the same error from then on. *)
Fixpoint well_behaved (polls : list ctx_err) : Prop :=
  match polls with
  | [] => True
  | no_error :: later => well_behaved later
  | err :: later => Forall (λ e, e = err) later
  end.

End Watcher.

(** ** More sample data *)

Module Scenario.

(** A context cancelled before the third poll, and one whose deadline
    passes before the second. *)
Definition cancelled : list Watcher.ctx_err :=
  [Watcher.no_error; Watcher.no_error; Watcher.Canceled; Watcher.Canceled].
Definition expired : list Watcher.ctx_err :=
  [Watcher.no_error; Watcher.DeadlineExceeded; Watcher.DeadlineExceeded].

(** An endpoint with a lower-case method name and three paths: one without
    its leading slash, one with an unbalanced brace, one that mux takes. *)
Definition D : Endpoint Sample.Func :=
  mkEndpoint (Some ["get"]) (Some ["a"; "/a/{id"; "/ok"]) "D".

Definition heapD (a : positive) : Endpoint Sample.Func := D.

(** The registry after [AddEndpoint(D)]. *)
Definition registryD : @Unexported.DynHttpSrv Sample.Func :=
  after (lib := Sample.library) heapD [Add (Go.at_addr 1)] Unexported.New.

(** A registry whose list has a nil pointer between two endpoints. *)
Definition poisoned : @Unexported.DynHttpSrv Sample.Func :=
  Unexported.mkDynHttpSrv
    (Unexported.mkSwappableRouter false (Spec.table (lib := Sample.library) []))
    [Sample.pA; Go.null; Sample.pB].

End Scenario.

(** * Properties *)

(** ** Running a sequence of statements *)

Section GoFacts.
Context {L S A B : Type}.

Lemma bind_Returns (m : Go.M L S A) (k : A → Go.M L S B) s a s' c :
  m s = Go.Run (Go.Returns a) s' c →
  Go.bind m k s
  = Go.Run (Go.res (k a s')) (Go.post (k a s')) (c ++ Go.calls (k a s')).
Proof. unfold Go.bind. by intros ->. Qed.

Lemma bind_Faults (m : Go.M L S A) (k : A → Go.M L S B) s f s' c :
  m s = Go.Run (Go.Faults f) s' c →
  Go.bind m k s = Go.Run (Go.Faults f) s' c.
Proof. unfold Go.bind. by intros ->. Qed.

End GoFacts.

(** ** mux: the chained calls of a registration act on the route just added *)

Section MuxFacts.
Context {Func : Type} {lib : mux.Library}.
Implicit Types (r : mux.Router Func) (rt : mux.Route Func).

Lemma onRoute_last g ss (l : list (mux.Route Func)) rt :
  mux.onRoute g (mux.mkRouter ss (l ++ [rt]), length l)
  = (mux.mkRouter ss (l ++ [g rt]), length l).
Proof.
  unfold mux.onRoute; simpl. f_equal. f_equal.
  rewrite <- (Nat.add_0_r (length l)) at 1.
  by rewrite alter_app_r.
Qed.

Lemma PathPrefix_HandlerFunc tpl f r :
  mux.HandlerFunc f (mux.PathPrefix tpl r)
  = (mux.mkRouter (mux.strictSlash r)
       (mux.routes r
        ++ [if mux.template_ok tpl
            then mux.mkRoute (mux.strictSlash r) [mux.PathPrefixMatcher tpl]
                   (Some f) false
            else mux.mkRoute (mux.strictSlash r) [] None true]),
     length (mux.routes r)).
Proof.
  unfold mux.HandlerFunc, mux.PathPrefix, mux.Route_PathPrefix, mux.NewRoute.
  rewrite !onRoute_last. unfold mux.addRegexpMatcher. cbn.
  by destruct (mux.template_ok tpl).
Qed.

Lemma HandleFunc_route path f r :
  mux.HandleFunc path f r
  = (mux.mkRouter (mux.strictSlash r)
       (mux.routes r
        ++ [if mux.template_ok path
            then mux.mkRoute (mux.strictSlash r) [mux.PathMatcher path]
                   (Some f) false
            else mux.mkRoute (mux.strictSlash r) [] None true]),
     length (mux.routes r)).
Proof.
  unfold mux.HandleFunc, mux.HandlerFunc, mux.Route_Path, mux.NewRoute.
  rewrite !onRoute_last. unfold mux.addRegexpMatcher. cbn.
  by destruct (mux.template_ok path).
Qed.

Lemma Methods_last methods ss (l : list (mux.Route Func)) rt :
  mux.Methods methods (mux.mkRouter ss (l ++ [rt]), length l)
  = (mux.mkRouter ss
       (l ++ [mux.addMatcher
                (mux.MethodMatcher (mux.strings_ToUpper <$> methods)) rt]),
     length l).
Proof. apply onRoute_last. Qed.

End MuxFacts.

(** ** The loop of [reloadEndpoints] builds the table of the spec *)

Section CompileFacts.
Context {Func : Type} {lib : mux.Library} (heap : positive → Endpoint Func).
Implicit Types (e : Endpoint Func) (r : mux.Router Func) (l : list Go.pointer).

(** The loop body on any router: the routes already there stay, those of the
    endpoint follow. *)
Lemma register_appends e r :
  Unexported.register e r
  = mux.mkRouter (mux.strictSlash r)
      (mux.routes r ++ (Spec.route_in (mux.strictSlash r) e <$> Spec.rules_of e)).
Proof.
  destruct r as [ss rs]; cbn [mux.strictSlash mux.routes].
  unfold Unexported.register, Spec.rules_of, Spec.route_in,
    Spec.method_restriction.
  destruct (Paths e) as [paths|].
  - revert rs. induction paths as [|path paths IH]; intros rs;
      cbn [foldl fmap list_fmap].
    + by rewrite app_nil_r.
    + destruct (Methods e) as [methods|].
      * rewrite HandleFunc_route, Methods_last;
          cbn [fst mux.strictSlash mux.routes].
        rewrite IH, <- app_assoc. cbn.
        by destruct (mux.template_ok path).
      * rewrite HandleFunc_route; cbn [fst mux.strictSlash mux.routes].
        rewrite IH, <- app_assoc. cbn.
        by destruct (mux.template_ok path).
  - destruct (Methods e) as [methods|].
    + by rewrite PathPrefix_HandlerFunc, Methods_last.
    + by rewrite PathPrefix_HandlerFunc.
Qed.

Lemma register_routes e r :
  mux.strictSlash r = true →
  Unexported.register e r = mux.mkRouter true (mux.routes r ++ Spec.routes_of e).
Proof. intros Hss. by rewrite register_appends, Hss. Qed.

End CompileFacts.

Section ReloadFacts.
Context {Func : Type} {lib : mux.Library} (heap : positive → Endpoint Func).
Implicit Types (e : Endpoint Func) (r : mux.Router Func) (l : list Go.pointer).
Implicit Types (dhs : @Unexported.DynHttpSrv Func).

Local Abbreviation loop_body S :=
  (λ endpoint newRouter,
     Go.bind (@Unexported.deref Func heap S endpoint)
       (λ e, Go.ret (Unexported.register e newRouter))).

Lemma range_endpoints {S} l r (s : S) :
  Go.null ∉ l →
  mux.strictSlash r = true →
  Go.range l (loop_body S) r s
  = Go.Run (Go.Returns
              (mux.mkRouter true
                 (mux.routes r ++ (pointees heap l ≫= Spec.routes_of))))
      s [].
Proof.
  revert r. induction l as [|p l IH]; intros r Hnull Hss.
  - simpl. rewrite app_nil_r. destruct r; simpl in *; by subst.
  - apply not_elem_of_cons in Hnull as [Hp Hl].
    destruct p as [|a]; [done|].
    cbn [Go.range]. unfold Go.bind at 1. cbn.
    rewrite IH by (done || by rewrite register_routes).
    rewrite register_routes by done. cbn.
    by rewrite <- app_assoc.
Qed.

(** A nil pointer in the list stops the loop with a panic, before any swap. *)
Lemma range_endpoints_null {S} l r (s : S) :
  Go.null ∈ l →
  Go.range l (loop_body S) r s = Go.Run (Go.Faults Go.NilDereference) s [].
Proof.
  revert r. induction l as [|p l IH]; intros r Hnull.
  - by apply elem_of_nil in Hnull.
  - destruct p as [|a]; [done|].
    apply elem_of_cons in Hnull as [|Hl]; [done|].
    cbn [Go.range]. unfold Go.bind at 1. cbn. by rewrite IH.
Qed.

Lemma swap_run newRouter (sr : @Unexported.swappableRouter Func) :
  Unexported.mu sr = false →
  Unexported.swap newRouter sr
  = Go.Run (Go.Returns tt) (Unexported.mkSwappableRouter false newRouter)
      [swap_call newRouter].
Proof. destruct sr as [m rt]; simpl; intros ->. reflexivity. Qed.

Lemma reloadEndpoints_run dhs :
  Unexported.mu (Unexported.Router dhs) = false →
  Go.null ∉ Unexported.Endpoints dhs →
  let newTable := Spec.table (pointees heap (Unexported.Endpoints dhs)) in
  Unexported.reloadEndpoints heap dhs
  = Go.Run (Go.Returns tt)
      (Unexported.mkDynHttpSrv
         (Unexported.mkSwappableRouter false newTable)
         (Unexported.Endpoints dhs))
      [reload_call; swap_call newTable].
Proof.
  intros Hmu Hnull newTable.
  unfold Unexported.reloadEndpoints.
  rewrite (bind_Returns _ _ _ tt dhs [reload_call]) by done.
  rewrite (bind_Returns _ _ _ dhs dhs []) by done.
  erewrite bind_Returns by (by apply range_endpoints).
  unfold Go.through. by rewrite swap_run.
Qed.

Lemma reloadEndpoints_null dhs :
  Go.null ∈ Unexported.Endpoints dhs →
  Unexported.reloadEndpoints heap dhs
  = Go.Run (Go.Faults Go.NilDereference) dhs [reload_call].
Proof.
  intros Hnull.
  unfold Unexported.reloadEndpoints.
  rewrite (bind_Returns _ _ _ tt dhs [reload_call]) by done.
  rewrite (bind_Returns _ _ _ dhs dhs []) by done.
  erewrite bind_Faults by (by apply range_endpoints_null).
  reflexivity.
Qed.

End ReloadFacts.

(** ** The search loop of [AddEndpoint] and [DelEndpoint] *)

Section SearchFacts.
Implicit Types (l : list Go.pointer) (endpoint : Go.pointer).

Lemma search_absent endpoint i l :
  endpoint ∉ l → Unexported.search endpoint i l = -1.
Proof.
  revert i. induction l as [|p l IH]; intros i Hout; [done|].
  apply not_elem_of_cons in Hout as [Hne Hout]. simpl.
  destruct (decide (p = endpoint)); [congruence|]. by apply IH.
Qed.

Lemma search_first endpoint i l1 l2 :
  endpoint ∉ l1 →
  Unexported.search endpoint i (l1 ++ endpoint :: l2) = i + Z.of_nat (length l1).
Proof.
  revert i. induction l1 as [|p l1 IH]; intros i Hout; simpl.
  - destruct (decide (endpoint = endpoint)); [lia|done].
  - apply not_elem_of_cons in Hout as [Hne Hout].
    destruct (decide (p = endpoint)); [congruence|].
    rewrite IH by done. lia.
Qed.

Lemma search_present endpoint l :
  endpoint ∈ l →
  ∃ l1 l2, l = l1 ++ endpoint :: l2 ∧ (endpoint ∉ l1)
           ∧ (Unexported.search endpoint 0 l = Z.of_nat (length l1)).
Proof.
  intros (l1 & l2 & -> & Hout)%list_elem_of_split_l.
  exists l1, l2. by rewrite search_first.
Qed.

Lemma cut_out {A} (l1 l2 : list A) (x : A) :
  take (Z.to_nat (Z.of_nat (length l1))) (l1 ++ x :: l2)
  ++ drop (Z.to_nat (Z.of_nat (length l1) + 1)) (l1 ++ x :: l2)
  = l1 ++ l2.
Proof.
  rewrite Nat2Z.id, take_app_length.
  replace (Z.to_nat (Z.of_nat (length l1) + 1)) with (length (l1 ++ [x])).
  - by rewrite (cons_middle x l1 l2), app_assoc, drop_app_length.
  - rewrite length_app. simpl. lia.
Qed.

End SearchFacts.

(** ** What one call of [AddEndpoint] or [DelEndpoint] does *)

Section RegistryFacts.
Context {Func : Type} {lib : mux.Library} (heap : positive → Endpoint Func).
Implicit Types (l : list Go.pointer) (endpoint : Go.pointer).
Implicit Types (dhs : @Unexported.DynHttpSrv Func).

Lemma AddEndpoint_present endpoint dhs :
  endpoint ∈ Unexported.Endpoints dhs →
  Unexported.AddEndpoint heap endpoint dhs
  = Go.Run (Go.Returns (Some "endpoint already added")) dhs [].
Proof.
  intros (l1 & l2 & Hl & Hout & Hpos)%search_present.
  unfold Unexported.AddEndpoint.
  rewrite (bind_Returns _ _ _ dhs dhs []) by done.
  rewrite Hpos. by destruct (Z.eqb_spec (Z.of_nat (length l1)) (-1)); [lia|].
Qed.

Lemma AddEndpoint_absent endpoint dhs :
  endpoint ∉ Unexported.Endpoints dhs →
  Unexported.AddEndpoint heap endpoint dhs
  = then_reload heap (Unexported.Endpoints dhs ++ [endpoint]) dhs.
Proof.
  intros Hout. unfold Unexported.AddEndpoint, then_reload.
  rewrite (bind_Returns _ _ _ dhs dhs []) by done.
  rewrite search_absent, Z.eqb_refl by done. cbn [negb].
  rewrite (bind_Returns _ _ _ tt
             (Unexported.set_Endpoints (Unexported.Endpoints dhs ++ [endpoint]) dhs)
             []) by done.
  unfold Go.bind.
  destruct (Unexported.reloadEndpoints heap _) as [[[]|f] s c]; cbn;
    by rewrite ?app_nil_r.
Qed.

Lemma DelEndpoint_absent endpoint dhs :
  endpoint ∉ Unexported.Endpoints dhs →
  Unexported.DelEndpoint heap endpoint dhs
  = Go.Run (Go.Returns (Some "endpoint not found")) dhs [].
Proof.
  intros Hout. unfold Unexported.DelEndpoint.
  rewrite (bind_Returns _ _ _ dhs dhs []) by done.
  by rewrite search_absent, Z.eqb_refl.
Qed.

Lemma DelEndpoint_present endpoint dhs l1 l2 :
  Unexported.Endpoints dhs = l1 ++ endpoint :: l2 →
  endpoint ∉ l1 →
  Unexported.DelEndpoint heap endpoint dhs = then_reload heap (l1 ++ l2) dhs.
Proof.
  intros Hl Hout. unfold Unexported.DelEndpoint, then_reload.
  rewrite (bind_Returns _ _ _ dhs dhs []) by done.
  rewrite Hl, search_first, Z.add_0_l by done.
  destruct (Z.eqb_spec (Z.of_nat (length l1)) (-1)); [lia|].
  rewrite cut_out.
  rewrite (bind_Returns _ _ _ tt (Unexported.set_Endpoints (l1 ++ l2) dhs) [])
    by done.
  unfold Go.bind.
  destruct (Unexported.reloadEndpoints heap _) as [[[]|f] s c]; cbn;
    by rewrite ?app_nil_r.
Qed.

(** [reloadEndpoints] never assigns to [dhs.Endpoints]. *)
Lemma reloadEndpoints_Endpoints dhs :
  Unexported.Endpoints (Go.post (Unexported.reloadEndpoints heap dhs))
  = Unexported.Endpoints dhs.
Proof.
  destruct (decide (Go.null ∈ Unexported.Endpoints dhs)) as [Hin|Hout].
  - by rewrite reloadEndpoints_null.
  - unfold Unexported.reloadEndpoints.
    rewrite (bind_Returns _ _ _ tt dhs [reload_call]) by done.
    rewrite (bind_Returns _ _ _ dhs dhs []) by done.
    erewrite bind_Returns by (by apply range_endpoints).
    reflexivity.
Qed.

End RegistryFacts.

(** ** The registry: [reloadEndpoints], [AddEndpoint], [DelEndpoint] *)

Section RegistryClaims.
Context {Func : Type} {lib : mux.Library} (heap : positive → Endpoint Func).
Implicit Types (l : list Go.pointer) (endpoint : Go.pointer).
Implicit Types (dhs : @Unexported.DynHttpSrv Func).

Lemma well_formed_routes_of (e : Endpoint Func) :
  Spec.well_formed e →
  Spec.routes_of e = Spec.claimed_route_for e <$> Spec.rules_of e.
Proof.
  intros [Hpaths Hmethods]. unfold Spec.routes_of.
  apply list_fmap_ext. intros i rule Hrule.
  unfold Spec.route_for, Spec.route_in, Spec.claimed_route_for,
    Spec.method_restriction.
  assert (default true (mux.template_ok <$> mux.template_of rule) = true)
    as ->.
  { unfold Spec.rules_of in Hrule. destruct (Paths e) as [paths|] eqn:He.
    - apply list_lookup_fmap_Some in Hrule as (path & -> & Hpath). cbn.
      apply (Hpaths paths path eq_refl). by apply list_elem_of_lookup_2 in Hpath.
    - by apply list_lookup_singleton_Some in Hrule as [_ <-]. }
  destruct (Methods e) as [methods|]; [|done].
  by rewrite (Hmethods methods eq_refl).
Qed.

Lemma well_formed_table (es : list (Endpoint Func)) :
  Forall Spec.well_formed es → Spec.table es = Spec.claimed_table es.
Proof.
  intros Hes. unfold Spec.table, Spec.claimed_table. f_equal.
  induction Hes as [|e es He Hes IH]; [done|].
  cbn. by rewrite IH, well_formed_routes_of.
Qed.

(** Registering again after mux has written the upper-cased method names
    back into the endpoints gives the same table, [strings.ToUpper] changing
    nothing in a name it has upper-cased. *)
Lemma table_unchanged_by_write_back (es : list (Endpoint Func)) :
  (∀ name, mux.strings_ToUpper (mux.strings_ToUpper name)
           = mux.strings_ToUpper name) →
  Spec.table (Spec.written_back <$> es) = Spec.table es.
Proof.
  intros Hidem. unfold Spec.table. f_equal.
  induction es as [|e es IH]; [done|]. cbn. rewrite IH. f_equal.
  unfold Spec.routes_of, Spec.route_for, Spec.route_in, Spec.rules_of,
    Spec.method_restriction, Spec.written_back. cbn.
  apply list_fmap_ext. intros i rule _.
  destruct (Methods e) as [methods|]; cbn; [|done].
  rewrite <- list_fmap_compose.
  assert ((mux.strings_ToUpper ∘ mux.strings_ToUpper) <$> methods
          = mux.strings_ToUpper <$> methods) as ->; [|done].
  apply list_fmap_ext. intros j name _. apply Hidem.
Qed.


(** C3.  Adding an endpoint whose pointer is already in the list returns the
    error "endpoint already added"; the registry (list and dispatcher) is the
    one before the call, and neither [reloadEndpoints] nor [swap] is called. *)
Theorem AddEndpoint_duplicate endpoint dhs :
  endpoint ∈ Unexported.Endpoints dhs →
  Unexported.AddEndpoint heap endpoint dhs
  = Go.Run (Go.Returns (Go.errors_New "endpoint already added")) dhs [].
Proof. apply AddEndpoint_present. Qed.


Lemma then_reload_Endpoints l dhs :
  Unexported.Endpoints (Go.post (then_reload heap l dhs)) = l.
Proof.
  unfold then_reload. cbn [Go.post].
  by rewrite reloadEndpoints_Endpoints.
Qed.

Lemma then_reload_settled l dhs :
  Unexported.mu (Unexported.Router dhs) = false →
  Go.null ∉ l →
  let newTable := Spec.table (pointees heap l) in
  then_reload heap l dhs
  = Go.Run (Go.Returns None)
      (Unexported.mkDynHttpSrv (Unexported.mkSwappableRouter false newTable) l)
      [reload_call; swap_call newTable].
Proof.
  intros Hmu Hnull newTable. unfold then_reload.
  by rewrite reloadEndpoints_run.
Qed.


Lemma perform_NoDup o dhs :
  NoDup (Unexported.Endpoints dhs) →
  NoDup (Unexported.Endpoints (Go.post (perform heap o dhs))).
Proof.
  intros Hnd. destruct o as [endpoint|endpoint]; unfold perform.
  - destruct (decide (endpoint ∈ Unexported.Endpoints dhs)) as [Hin|Hout].
    + by rewrite AddEndpoint_present.
    + rewrite AddEndpoint_absent, then_reload_Endpoints by done.
      apply NoDup_app. split_and!; [done| |apply NoDup_singleton].
      intros x Hx ->%list_elem_of_singleton. done.
  - destruct (decide (endpoint ∈ Unexported.Endpoints dhs)) as [Hin|Hout].
    + apply search_present in Hin as (l1 & l2 & Hl & Hout & _).
      rewrite (DelEndpoint_present _ _ _ l1 l2), then_reload_Endpoints by done.
      rewrite Hl in Hnd. apply NoDup_app in Hnd as (Hnd1 & Hdis & Hnd2).
      apply NoDup_cons in Hnd2 as [_ Hnd2].
      apply NoDup_app. split_and!; [done| |done].
      intros x Hx Hx2. apply (Hdis x Hx). by right.
    + by rewrite DelEndpoint_absent.
Qed.

Lemma after_snoc ops o dhs :
  after heap (ops ++ [o]) dhs = Go.post (perform heap o (after heap ops dhs)).
Proof. unfold after. by rewrite foldl_snoc. Qed.

(** C7.  Whatever sequence of [AddEndpoint] and [DelEndpoint] calls is made on
    a new registry, also one with calls that fail or panic, the list then
    holds no pointer twice, and still holds none twice after one more call. *)
Theorem Endpoints_never_duplicated ops :
  NoDup (Unexported.Endpoints (after heap ops Unexported.New))
  ∧ ∀ o, NoDup (Unexported.Endpoints
                  (Go.post (perform heap o (after heap ops Unexported.New)))).
Proof.
  assert (NoDup (Unexported.Endpoints (after heap ops Unexported.New))) as Hnd.
  { induction ops as [|o ops IH] using rev_ind.
    - apply NoDup_nil_2.
    - rewrite after_snoc. by apply perform_NoDup. }
  split; [done|]. intros o. by apply perform_NoDup.
Qed.

(** A nil pointer gets past the check of [AddEndpoint], is appended, and makes
    [reloadEndpoints] panic before it swaps. *)
Remark AddEndpoint_nil_panics dhs :
  Go.null ∉ Unexported.Endpoints dhs →
  Unexported.AddEndpoint heap Go.null dhs
  = Go.Run (Go.Faults Go.NilDereference)
      (Unexported.set_Endpoints (Unexported.Endpoints dhs ++ [Go.null]) dhs)
      [reload_call].
Proof.
  intros Hout. rewrite AddEndpoint_absent by done. unfold then_reload.
  rewrite reloadEndpoints_null; [done|].
  cbn. apply elem_of_app. right. by left.
Qed.

(** A call that returns keeps the registry settled and the dispatcher in
    sync with the list. *)
Lemma perform_returns_consistent o dhs err :
  settled dhs → in_sync heap dhs →
  Go.res (perform heap o dhs) = Go.Returns err →
  settled (Go.post (perform heap o dhs))
  ∧ in_sync heap (Go.post (perform heap o dhs)).
Proof.
  intros [Hmu Hnull] Hsync. destruct o as [endpoint|endpoint]; unfold perform.
  - destruct (decide (endpoint ∈ Unexported.Endpoints dhs)) as [Hin|Hout].
    { by rewrite AddEndpoint_present. }
    rewrite AddEndpoint_absent by done.
    destruct endpoint as [|a].
    { unfold then_reload. rewrite reloadEndpoints_null; [done|].
      cbn. apply elem_of_app. right. by left. }
    rewrite then_reload_settled; [|done|].
    + intros _. repeat split. cbn.
      apply not_elem_of_app. split; [done|].
      by intros ?%list_elem_of_singleton.
    + apply not_elem_of_app. split; [done|].
      by intros ?%list_elem_of_singleton.
  - destruct (decide (endpoint ∈ Unexported.Endpoints dhs)) as [Hin|Hout].
    2: { by rewrite DelEndpoint_absent. }
    apply search_present in Hin as (l1 & l2 & Hl & Hout & _).
    rewrite (DelEndpoint_present _ _ _ l1 l2) by done.
    assert (Go.null ∉ l1 ++ l2) as Hnull'.
    { rewrite Hl in Hnull.
      apply not_elem_of_app in Hnull as [Hn1 [_ Hn2]%not_elem_of_cons].
      by apply not_elem_of_app. }
    rewrite then_reload_settled by done. intros _. by repeat split.
Qed.

Lemma all_return_consistent ops dhs :
  settled dhs → in_sync heap dhs → all_return heap ops dhs →
  settled (after heap ops dhs) ∧ in_sync heap (after heap ops dhs).
Proof.
  revert dhs. induction ops as [|o ops IH]; intros dhs Hs Hy Hret; [done|].
  destruct Hret as [[err Herr] Hret]. cbn.
  destruct (perform_returns_consistent o dhs err) as [Hs' Hy']; [done..|].
  by apply IH.
Qed.

Lemma New_consistent : settled (@Unexported.New Func) ∧ in_sync heap Unexported.New.
Proof. repeat split. cbn. apply not_elem_of_nil. Qed.

End RegistryClaims.

Section RoundTrip.
Context {Func Request Response : Type} {lib : mux.Library}.
Context (mux_ServeHTTP : mux.Router Func → Request → Response).
Context (heap : positive → Endpoint Func).
Implicit Types (dhs : @Unexported.DynHttpSrv Func).

Lemma ServeHTTP_run (r : Request) (sr : @Unexported.swappableRouter Func) :
  Unexported.mu sr = false →
  Unexported.ServeHTTP mux_ServeHTTP r sr
  = Go.Run (Go.Returns (mux_ServeHTTP (Unexported.router sr) r)) sr [].
Proof. destruct sr as [m rt]; simpl; intros ->. reflexivity. Qed.


End RoundTrip.

(** ** The two files *)

Section TwoFiles.
Context {Func Request Response : Type} {lib : mux.Library}.
Context (mux_ServeHTTP : mux.Router Func → Request → Response).
Context (heap : positive → Endpoint Func).
Implicit Types (dhs : @Unexported.DynHttpSrv Func).
Implicit Types (sr : @Unexported.swappableRouter Func).

Lemma Swap_swap newRouter sr :
  Exported.Swap newRouter (exported_router sr)
  = seen_as exported_router (Unexported.swap newRouter sr).
Proof. by destruct sr as [[] rt]. Qed.

Lemma ServeHTTP_ServeHTTP r sr :
  Exported.ServeHTTP mux_ServeHTTP r (exported_router sr)
  = seen_as exported_router (Unexported.ServeHTTP mux_ServeHTTP r sr).
Proof. by destruct sr as [[] rt]. Qed.

Lemma ReloadEndpoints_reloadEndpoints dhs :
  Exported.ReloadEndpoints heap (exported dhs)
  = seen_as exported (Unexported.reloadEndpoints heap dhs).
Proof.
  unfold Exported.ReloadEndpoints, Unexported.reloadEndpoints.
  rewrite (bind_Returns _ _ _ tt (exported dhs) [reload_call]) by done.
  rewrite (bind_Returns _ _ _ (exported dhs) (exported dhs) []) by done.
  rewrite (bind_Returns _ _ _ tt dhs [reload_call]) by done.
  rewrite (bind_Returns _ _ _ dhs dhs []) by done.
  change (Exported.Endpoints (exported dhs)) with (Unexported.Endpoints dhs).
  destruct (decide (Go.null ∈ Unexported.Endpoints dhs)) as [Hin|Hout].
  - erewrite !bind_Faults; [done|by apply range_endpoints_null|].
    by apply (range_endpoints_null heap).
  - erewrite !bind_Returns; [|by apply range_endpoints|].
    2: { by apply (range_endpoints heap). }
    unfold Go.through.
    change (Exported.Router (exported dhs))
      with (exported_router (Unexported.Router dhs)).
    rewrite Swap_swap. reflexivity.
Qed.

Lemma AddEndpoint_AddEndpoint endpoint dhs :
  Exported.AddEndpoint heap endpoint (exported dhs)
  = seen_as exported (Unexported.AddEndpoint heap endpoint dhs).
Proof.
  unfold Exported.AddEndpoint, Unexported.AddEndpoint.
  rewrite (bind_Returns _ _ _ (exported dhs) (exported dhs) []) by done.
  rewrite (bind_Returns _ _ _ dhs dhs []) by done.
  change (Exported.search endpoint 0 (Exported.Endpoints (exported dhs)))
    with (Unexported.search endpoint 0 (Unexported.Endpoints dhs)).
  destruct (_ =? _)%Z; cbn [negb]; [|done].
  set (l' := Unexported.Endpoints dhs ++ [endpoint]).
  rewrite (bind_Returns _ _ _ tt (exported (Unexported.set_Endpoints l' dhs)) [])
    by done.
  rewrite (bind_Returns _ _ _ tt (Unexported.set_Endpoints l' dhs) []) by done.
  unfold Go.bind. rewrite ReloadEndpoints_reloadEndpoints.
  by destruct (Unexported.reloadEndpoints heap _) as [[[]|f] s c].
Qed.

Lemma DelEndpoint_DelEndpoint endpoint dhs :
  Exported.DelEndpoint heap endpoint (exported dhs)
  = seen_as exported (Unexported.DelEndpoint heap endpoint dhs).
Proof.
  unfold Exported.DelEndpoint, Unexported.DelEndpoint.
  rewrite (bind_Returns _ _ _ (exported dhs) (exported dhs) []) by done.
  rewrite (bind_Returns _ _ _ dhs dhs []) by done.
  change (Exported.search endpoint 0 (Exported.Endpoints (exported dhs)))
    with (Unexported.search endpoint 0 (Unexported.Endpoints dhs)).
  destruct (_ =? _)%Z; [done|].
  change (Exported.Endpoints (exported dhs)) with (Unexported.Endpoints dhs).
  set (l' := take _ _ ++ drop _ _).
  rewrite (bind_Returns _ _ _ tt (exported (Unexported.set_Endpoints l' dhs)) [])
    by done.
  rewrite (bind_Returns _ _ _ tt (Unexported.set_Endpoints l' dhs) []) by done.
  unfold Go.bind. rewrite ReloadEndpoints_reloadEndpoints.
  by destruct (Unexported.reloadEndpoints heap _) as [[[]|f] s c].
Qed.

(** C9.  The file with exported names behaves as the file with unexported
    names: its states are those of the first file under the renaming, [New]
    makes the same registry, and from the same state and arguments
    [AddEndpoint], [DelEndpoint], [ReloadEndpoints], [Swap] and [ServeHTTP]
    end as [AddEndpoint], [DelEndpoint], [reloadEndpoints], [swap] and
    [ServeHTTP] do: same result or panic, same final state, same calls. *)
Theorem exported_copy_behaves_alike :
  (∀ dhs' : @Exported.DynHttpSrv Func, ∃ dhs, dhs' = exported dhs)
  ∧ @Exported.New Func = exported Unexported.New
  ∧ (∀ endpoint dhs,
       Exported.AddEndpoint heap endpoint (exported dhs)
       = seen_as exported (Unexported.AddEndpoint heap endpoint dhs))
  ∧ (∀ endpoint dhs,
       Exported.DelEndpoint heap endpoint (exported dhs)
       = seen_as exported (Unexported.DelEndpoint heap endpoint dhs))
  ∧ (∀ dhs,
       Exported.ReloadEndpoints heap (exported dhs)
       = seen_as exported (Unexported.reloadEndpoints heap dhs))
  ∧ (∀ newRouter sr,
       Exported.Swap newRouter (exported_router sr)
       = seen_as exported_router (Unexported.swap newRouter sr))
  ∧ (∀ r sr,
       Exported.ServeHTTP mux_ServeHTTP r (exported_router sr)
       = seen_as exported_router (Unexported.ServeHTTP mux_ServeHTTP r sr)).
Proof.
  split_and!.
  - intros [[m rt] l].
    by exists (Unexported.mkDynHttpSrv (Unexported.mkSwappableRouter m rt) l).
  - reflexivity.
  - apply AddEndpoint_AddEndpoint.
  - apply DelEndpoint_DelEndpoint.
  - apply ReloadEndpoints_reloadEndpoints.
  - apply Swap_swap.
  - apply ServeHTTP_ServeHTTP.
Qed.

End TwoFiles.

(** ** Nil and empty path lists *)

Section EmptyPaths.
Context {Func : Type} {lib : mux.Library} (heap : positive → Endpoint Func).
Implicit Types (e : Endpoint Func) (dhs : @Unexported.DynHttpSrv Func).

Lemma registered_by_routes_of e : registered_by e = Spec.routes_of e.
Proof. unfold registered_by. by rewrite register_routes. Qed.

Lemma pointees_app (l1 l2 : list Go.pointer) :
  pointees heap (l1 ++ l2) = pointees heap l1 ++ pointees heap l2.
Proof. apply omap_app. Qed.

(** C10.  The loop body tests [Paths] against nil only.  An endpoint whose
    [Paths] is an empty non-nil slice registers no route: the loop body
    leaves the router as it is, and the table rebuilt from a list holding
    such an endpoint is the table rebuilt from the list without it.  An
    endpoint registers a route with the prefix matcher on "/" exactly when
    its [Paths] is nil. *)
Theorem empty_Paths_registers_nothing :
  (∀ e, Paths e = Some [] →
        registered_by e = [] ∧ ∀ newRouter, Unexported.register e newRouter = newRouter)
  ∧ (∀ e, (∃ rt, rt ∈ registered_by e
                 ∧ mux.PathPrefixMatcher "/" ∈ mux.matchers rt)
          ↔ Paths e = None)
  ∧ (∀ dhs l1 l2 a,
       settled dhs →
       Unexported.Endpoints dhs = l1 ++ Go.at_addr a :: l2 →
       Paths (heap a) = Some [] →
       Unexported.router (Unexported.Router
                            (Go.post (Unexported.reloadEndpoints heap dhs)))
       = Unexported.router
           (Unexported.Router
              (Go.post (Unexported.reloadEndpoints heap
                          (Unexported.set_Endpoints (l1 ++ l2) dhs))))).
Proof.
  split_and!.
  - intros e He. split.
    + rewrite registered_by_routes_of. unfold Spec.routes_of, Spec.rules_of.
      by rewrite He.
    + intros newRouter. unfold Unexported.register. by rewrite He.
  - intros e. rewrite registered_by_routes_of.
    unfold Spec.routes_of, Spec.rules_of.
    destruct (Paths e) as [paths|]; split.
    + intros (rt & Hrt & Hm).
      apply list_elem_of_fmap in Hrt as (rule & -> & Hrule).
      apply list_elem_of_fmap in Hrule as (path & -> & _).
      unfold Spec.route_for, Spec.route_in, Spec.method_restriction in Hm.
      cbn in Hm. destruct (mux.template_ok path); cbn in Hm.
      * apply elem_of_cons in Hm as [Hm|Hm]; [done|].
        destruct (Methods e); [|by apply elem_of_nil in Hm].
        by apply list_elem_of_singleton in Hm.
      * by apply elem_of_nil in Hm.
    + done.
    + done.
    + intros _. eexists. split; [by left|]. by left.
  - intros dhs l1 l2 a [Hmu Hnull] Hl He.
    assert (Go.null ∉ l1 ++ l2) as Hnull'.
    { rewrite Hl in Hnull.
      apply not_elem_of_app in Hnull as [Hn1 [_ Hn2]%not_elem_of_cons].
      by apply not_elem_of_app. }
    rewrite !reloadEndpoints_run by done.
    cbn [Go.post Unexported.Router Unexported.router Unexported.Endpoints
         Unexported.set_Endpoints].
    rewrite Hl, (cons_middle (Go.at_addr a) l1 l2), !pointees_app.
    unfold Spec.table. f_equal. rewrite !bind_app. f_equal.
    cbn. unfold Spec.routes_of, Spec.rules_of. by rewrite He.
Qed.

End EmptyPaths.

(** ** A request racing with a swap *)

Section RaceFacts.
Context {Func Request Response : Type}.
Context (mux_ServeHTTP : mux.Router Func → Request → Response).
Context (r : Request) (oldRouter newRouter : mux.Router Func).

Local Abbreviation step := (Race.step mux_ServeHTTP r newRouter).
Local Abbreviation run := (Race.run mux_ServeHTTP r newRouter).
Local Abbreviation consistent :=
  (Race.consistent mux_ServeHTTP r newRouter oldRouter).
Implicit Types (c : @Race.config Func Request Response).

Lemma actions_of_snoc (t t' : Race.thread) (a : @Race.action Func Request)
    (tr : list (Race.thread * Race.action)) :
  Race.actions_of t (tr ++ [(t', a)])
  = Race.actions_of t tr
    ++ match t', t with
       | Race.dispatcher, Race.dispatcher | Race.swapper, Race.swapper => [a]
       | _, _ => []
       end.
Proof.
  unfold Race.actions_of. rewrite omap_app. f_equal.
  by destruct t, t'.
Qed.

Lemma current_after_snoc (tr : list (Race.thread * @Race.action Func Request))
    t a :
  Race.current_after oldRouter (tr ++ [(t, a)])
  = match a with
    | Race.StoreShared new => new
    | _ => Race.current_after oldRouter tr
    end.
Proof. unfold Race.current_after. by rewrite foldl_snoc. Qed.

Lemma start_consistent : consistent (Race.start oldRouter).
Proof.
  unfold Race.consistent, Race.start; cbn.
  split_and!; try done; by left.
Qed.

Lemma step_consistent t c c' :
  consistent c → step t c = Some c' → consistent c'.
Proof.
  destruct c as [[m rt] pc sw tr].
  intros (Hcur & Hrt & Hmu & Hexcl & Hcap & Hresp & Hact) Hstep.
  cbn [Race.shared Race.serve Race.swp Race.trace
       Unexported.router Unexported.mu]
    in Hcur, Hrt, Hmu, Hexcl, Hcap, Hresp, Hact.
  assert (∀ T x, (∃ before later,
                    tr = before ++ (Race.dispatcher, Race.LoadShared T) :: later
                    ∧ T = Race.current_after oldRouter before) →
                 ∃ before later,
                   tr ++ [x] = before ++ (Race.dispatcher, Race.LoadShared T) :: later
                   ∧ T = Race.current_after oldRouter before) as Hkeep.
  { intros T x (before & later & -> & HT).
    exists before, (later ++ [x]). by rewrite <- app_assoc. }
  destruct t; cbn in Hstep.
  - destruct pc as [|T|T|T|T|T resp]; cbn in Hstep, Hmu, Hexcl;
      try (destruct m; [discriminate Hstep|]);
      try (destruct m; [|discriminate Hstep]);
      try discriminate Hstep;
      injection Hstep as <-; unfold Race.consistent;
      cbn [Race.shared Race.serve Race.swp Race.trace];
      rewrite current_after_snoc, actions_of_snoc, Hact; cbn;
      (split_and!; [done..| | |done]);
      try (intros ? ? [= <- <-]; done);
      try (intros ? [= <-]; destruct (Hcap T eq_refl) as [HT Hsplit];
           split; [done|]; by apply Hkeep);
      try done.
    intros ? [= <-]. split; [done|]. by exists tr, [].
  - destruct sw; cbn in Hstep, Hmu, Hexcl;
      try (destruct m; [discriminate Hstep|]);
      try (destruct m; [|discriminate Hstep]);
      try discriminate Hstep;
      injection Hstep as <-; unfold Race.consistent;
      cbn [Race.shared Race.serve Race.swp Race.trace];
      rewrite current_after_snoc, actions_of_snoc, Hact, ?app_nil_r; cbn;
      (split_and!; [try done..| |done|done]);
      try (by right);
      try (intros T HT; destruct (Hcap T HT) as [HT' Hsplit];
           split; [done|]; by apply Hkeep).
    all: by destruct (Race.serving_locked pc).
Qed.

Lemma run_consistent schedule c c' :
  consistent c → run schedule c = Some c' → consistent c'.
Proof.
  revert c. induction schedule as [|t rest IH]; intros c Hc Hrun; cbn in Hrun.
  - by injection Hrun as <-.
  - destruct (step t c) as [c1|] eqn:Hstep; [|done].
    apply (IH c1); [|done]. by apply (step_consistent t c).
Qed.

(** The reference a call holds is never replaced by a later step. *)
Lemma run_captured schedule c c' T :
  run schedule c = Some c' →
  Race.captured (Race.serve c) = Some T →
  Race.captured (Race.serve c') = Some T.
Proof.
  revert c. induction schedule as [|t rest IH]; intros c Hrun HT; cbn in Hrun.
  - by injection Hrun as <-.
  - destruct (step t c) as [c1|] eqn:Hstep; [|done].
    apply (IH c1); [done|]. clear Hrun IH.
    destruct c as [[m rt] pc sw tr]. destruct t; cbn in Hstep.
    + destruct pc; cbn in Hstep, HT; try done;
        try (destruct m; try done); by injection Hstep as <-.
    + destruct sw; cbn in Hstep; try done;
        try (destruct m; try done); by injection Hstep as <-.
Qed.

(** No deadlock: while a call has not returned, some thread can step. *)
Lemma progress c :
  consistent c → Race.finished c = false →
  ∃ t c', step t c = Some c' ∧ Race.remaining c = S (Race.remaining c').
Proof.
  destruct c as [[m rt] pc sw tr].
  intros (_ & _ & Hmu & Hexcl & _) Hfin.
  cbn [Race.shared Race.serve Race.swp Unexported.mu] in Hmu, Hexcl.
  destruct sw; cbn in Hmu, Hexcl.
  - destruct pc; cbn in Hmu; subst m;
      first [ by exists Race.dispatcher; eexists
            | by exists Race.swapper; eexists ].
  - rewrite orb_true_r in Hmu. subst m.
    exists Race.swapper; eexists. split; [done|]. by destruct pc.
  - rewrite orb_true_r in Hmu. subst m.
    exists Race.swapper; eexists. split; [done|]. by destruct pc.
  - rewrite orb_false_r in Hmu.
    destruct pc; cbn in Hmu, Hfin; subst m; try done;
      by exists Race.dispatcher; eexists.
Qed.

Lemma completion c :
  consistent c →
  ∃ rest c', run rest c = Some c' ∧ Race.finished c' = true.
Proof.
  remember (Race.remaining c) as n eqn:Hn.
  revert c Hn. induction n as [|n IH]; intros c Hn Hc.
  - exists [], c. split; [done|].
    destruct c as [sh pc sw tr]. unfold Race.remaining in Hn. cbn in Hn.
    by destruct pc, sw.
  - destruct (Race.finished c) eqn:Hfin.
    { destruct c as [sh pc sw tr]. by destruct pc, sw. }
    destruct (progress c Hc Hfin) as (t & c1 & Hstep & Hrem).
    destruct (IH c1) as (rest & c' & Hrun & Hdone).
    + lia.
    + by apply (step_consistent t c).
    + exists (t :: rest), c'. cbn. by rewrite Hstep.
Qed.

(** C1.  A call of [ServeHTTP] racing with [swap(newRouter)] on a dispatcher
    holding [oldRouter]: in every interleaving the call holds, from its one
    load on, one and the same reference, which is [oldRouter] or [newRouter];
    its answer is the answer of that one table; and from wherever the two
    calls stand they can both run to their end, the request then being
    answered by [oldRouter] alone or by [newRouter] alone. *)
Theorem racing_dispatch_served_by_one_table schedule c :
  run schedule (Race.start oldRouter) = Some c →
  (∀ T, Race.captured (Race.serve c) = Some T →
        (T = oldRouter ∨ T = newRouter)
        ∧ ∀ rest c', run rest c = Some c' →
                     Race.captured (Race.serve c') = Some T)
  ∧ (∀ resp, Race.response (Race.serve c) = Some resp →
             ∃ T, Race.captured (Race.serve c) = Some T
                  ∧ resp = mux_ServeHTTP T r)
  ∧ ∃ rest c' T,
      run rest c = Some c' ∧ Race.finished c' = true
      ∧ (T = oldRouter ∨ T = newRouter)
      ∧ Race.serve c' = Race.Served T (mux_ServeHTTP T r).
Proof.
  intros Hrun.
  assert (consistent c) as Hc.
  { apply (run_consistent schedule (Race.start oldRouter)); [|done].
    apply start_consistent. }
  split_and!.
  - intros T HT. split.
    + destruct Hc as (_ & _ & _ & _ & Hcap & _). by destruct (Hcap T HT).
    + intros rest c' Hrest. by apply (run_captured rest c).
  - intros resp Hresp.
    destruct Hc as (_ & _ & _ & _ & _ & Hserved & _).
    destruct (Race.serve c) as [| | | | |T resp'] eqn:Hpc; try done.
    injection Hresp as <-. exists T. split; [done|]. by apply Hserved.
  - destruct (completion c Hc) as (rest & c' & Hrest & Hfin).
    assert (consistent c') as Hc' by by apply (run_consistent rest c).
    destruct Hc' as (_ & _ & _ & _ & Hcap & Hserved & _).
    destruct c' as [sh pc sw tr]. cbn in Hcap, Hserved.
    destruct pc as [| | | | |T resp]; try done.
    exists rest, (Race.mkConfig sh (Race.Served T resp) sw tr), T.
    split_and!; [done..| |].
    + by destruct (Hcap T eq_refl).
    + cbn. by rewrite (Hserved T resp eq_refl).
Qed.

(** C8.  [ServeHTTP] answers with what the table in the dispatcher answers to
    the request it was given and leaves the dispatcher as it found it; and
    however its statements interleave with a swap, a call that has returned
    has loaded the shared reference once (the value the field then had),
    taken and released the mutex, and delegated that same request to that
    same table, its answer being the table's. *)
Theorem ServeHTTP_reads_once_then_delegates :
  (∀ sr : @Unexported.swappableRouter Func,
     Unexported.mu sr = false →
     Unexported.ServeHTTP mux_ServeHTTP r sr
     = Go.Run (Go.Returns (mux_ServeHTTP (Unexported.router sr) r)) sr [])
  ∧ (∀ schedule c T resp,
       run schedule (Race.start oldRouter) = Some c →
       Race.serve c = Race.Served T resp →
       Race.actions_of Race.dispatcher (Race.trace c)
       = [Race.LoadShared T; Race.Acquire; Race.ReadCopy T; Race.Release;
          Race.Delegate T r]
       ∧ resp = mux_ServeHTTP T r
       ∧ ∃ before later,
           Race.trace c = before ++ (Race.dispatcher, Race.LoadShared T) :: later
           ∧ T = Race.current_after oldRouter before).
Proof.
  split; [apply ServeHTTP_run|].
  intros schedule c T resp Hrun Hpc.
  assert (consistent c) as Hc.
  { apply (run_consistent schedule (Race.start oldRouter)); [|done].
    apply start_consistent. }
  destruct Hc as (_ & _ & _ & _ & Hcap & Hserved & Hact).
  rewrite Hpc in Hcap, Hact. split_and!.
  - done.
  - by apply Hserved.
  - by destruct (Hcap T eq_refl).
Qed.

(** The load of the shared field is the copy of the receiver, made before
    [sr.mu.Lock()]: it can happen while [swap] holds the mutex. *)
Remark receiver_copied_outside_the_lock :
  ∃ c, run [Race.swapper; Race.dispatcher] (Race.start oldRouter) = Some c
       ∧ Unexported.mu (Race.shared c) = true
       ∧ Race.swp c = Race.AtAssign
       ∧ Race.serve c = Race.AtLock oldRouter.
Proof. by eexists. Qed.

(** Both tables can serve the racing request. *)
Remark either_table_can_serve :
  (∃ c, run [Race.dispatcher; Race.swapper; Race.swapper; Race.swapper;
             Race.dispatcher; Race.dispatcher; Race.dispatcher; Race.dispatcher]
          (Race.start oldRouter) = Some c
        ∧ Race.serve c = Race.Served oldRouter (mux_ServeHTTP oldRouter r)
        ∧ Unexported.router (Race.shared c) = newRouter)
  ∧ (∃ c, run [Race.swapper; Race.swapper; Race.swapper;
               Race.dispatcher; Race.dispatcher; Race.dispatcher;
               Race.dispatcher; Race.dispatcher]
            (Race.start oldRouter) = Some c
          ∧ Race.serve c = Race.Served newRouter (mux_ServeHTTP newRouter r)).
Proof. split; by eexists. Qed.

End RaceFacts.

(** ** The properties at work on the sample data *)

Section Witnesses.
Import Sample.

(** [AddEndpoint(A)] then [AddEndpoint(B)] on a new registry, run: A's route
    on "/a" restricted to GET, then B's catch-all on "/". *)
Example registry_computed :
  registry
  = Unexported.mkDynHttpSrv
      (Unexported.mkSwappableRouter false
         (mux.mkRouter true
            [mux.mkRoute true
               [mux.PathMatcher "/a"; mux.MethodMatcher ["GET"]] (Some "A")
               false;
             mux.mkRoute true [mux.PathPrefixMatcher "/"] (Some "B") false]))
      [pA; pB].
Proof. reflexivity. Qed.

(** [AddEndpoint(nil)] on it panics after the append and before any swap. *)
Example registry_add_nil :
  Unexported.AddEndpoint heap Go.null registry
  = Go.Run (Go.Faults Go.NilDereference)
      (Unexported.set_Endpoints [pA; pB; Go.null] registry) [reload_call].
Proof. reflexivity. Qed.

Lemma registry_settled : settled registry.
Proof. split; [reflexivity|]. compute_done. Defined.

Lemma registry_in_sync : in_sync heap registry.
Proof. reflexivity. Defined.

Lemma racing_dispatch_served_by_one_table_witness :
  Race.run first_route request newTable [Race.dispatcher; Race.swapper]
    (Race.start oldTable) = Some midway
  ∧ ∃ rest c' T,
      Race.run first_route request newTable rest midway = Some c'
      ∧ Race.finished c' = true
      ∧ (T = oldTable ∨ T = newTable)
      ∧ Race.serve c' = Race.Served T (first_route T request).
Proof.
  split; [reflexivity|].
  apply (racing_dispatch_served_by_one_table first_route request oldTable
           newTable [Race.dispatcher; Race.swapper] midway).
  reflexivity.
Defined.



Lemma AddEndpoint_duplicate_witness :
  pA ∈ Unexported.Endpoints registry
  ∧ Unexported.AddEndpoint heap pA registry
    = Go.Run (Go.Returns (Some "endpoint already added")) registry [].
Proof.
  assert (pA ∈ Unexported.Endpoints registry) as Hin by compute_done.
  split; [exact Hin|].
  exact (AddEndpoint_duplicate heap pA registry Hin).
Defined.




Lemma ServeHTTP_reads_once_then_delegates_witness :
  (Unexported.mu (Unexported.Router registry) = false
   ∧ Unexported.ServeHTTP first_route request (Unexported.Router registry)
     = Go.Run (Go.Returns "A") (Unexported.Router registry) [])
  ∧ (Race.run first_route request newTable
       [Race.dispatcher; Race.dispatcher; Race.dispatcher; Race.dispatcher;
        Race.dispatcher]
       (Race.start oldTable) = Some served_first
     ∧ Race.actions_of Race.dispatcher (Race.trace served_first)
       = [Race.LoadShared oldTable; Race.Acquire; Race.ReadCopy oldTable;
          Race.Release; Race.Delegate oldTable request]).
Proof.
  destruct (ServeHTTP_reads_once_then_delegates first_route request oldTable
              newTable) as [Hseq Hrace].
  split.
  - split; [reflexivity|].
    exact (Hseq (Unexported.Router registry) eq_refl).
  - split; [reflexivity|].
    exact (proj1 (Hrace (replicate 5 Race.dispatcher) served_first oldTable "A"
                    eq_refl eq_refl)).
Defined.

Lemma empty_Paths_registers_nothing_witness :
  (Paths C = Some [] ∧ registered_by C = [])
  ∧ (Paths B = None
     ∧ ∃ rt, rt ∈ registered_by B
             ∧ mux.PathPrefixMatcher "/" ∈ mux.matchers rt).
Proof.
  destruct (empty_Paths_registers_nothing heap) as (Hempty & Hnil & _).
  split.
  - split; [reflexivity|]. exact (proj1 (Hempty C eq_refl)).
  - split; [reflexivity|]. exact (proj2 (Hnil B) eq_refl).
Defined.

End Witnesses.

(** * Further properties of the code *)

(** ** The search loop *)

Section SearchLoop.
Implicit Types (l : list Go.pointer) (endpoint : Go.pointer).

(** Lines 82-88 and 98-104.  After the loop [pos] is -1 exactly when the
    pointer is not in the list; otherwise it is the index of the first entry
    equal to the pointer. *)
Theorem search_finds_first_occurrence endpoint l :
  (Unexported.search endpoint 0 l = -1 ↔ endpoint ∉ l)
  ∧ (endpoint ∈ l →
     ∃ i : nat,
       Unexported.search endpoint 0 l = Z.of_nat i
       ∧ l !! i = Some endpoint
       ∧ ∀ j : nat, (j < i)%nat → l !! j ≠ Some endpoint).
Proof.
  split.
  - split; [|apply search_absent].
    intros Hpos Hin.
    apply search_present in Hin as (l1 & l2 & _ & _ & Hfound). lia.
  - intros (l1 & l2 & -> & Hout & Hfound)%search_present.
    exists (length l1). split_and!; [done| |].
    + apply list_lookup_middle. done.
    + intros j Hj Hlook. rewrite lookup_app_l in Hlook by done.
      by apply list_elem_of_lookup_2 in Hlook.
Qed.

End SearchLoop.

(** ** More on the registry *)

Section RegistryMore.
Context {Func : Type} {lib : mux.Library} (heap : positive → Endpoint Func).
Implicit Types (l : list Go.pointer) (endpoint : Go.pointer).
Implicit Types (dhs : @Unexported.DynHttpSrv Func).

Lemma then_reload_null l dhs :
  Go.null ∈ l →
  then_reload heap l dhs
  = Go.Run (Go.Faults Go.NilDereference) (Unexported.set_Endpoints l dhs)
      [reload_call].
Proof. intros Hin. unfold then_reload. by rewrite reloadEndpoints_null. Qed.

(** Whatever a call of [then_reload] does, it returns nil or panics. *)
Lemma then_reload_no_error l dhs msg :
  Go.res (then_reload heap l dhs) ≠ Go.Returns (Some msg).
Proof.
  unfold then_reload. cbn [Go.res].
  by destruct (Go.res (Unexported.reloadEndpoints heap _)).
Qed.

(** From New, a sequence of calls that all return leaves the mutex free, no
    nil pointer in the list, and in the dispatcher the table of the list as
    it then is, whichever of the calls were refused. *)
Theorem returning_calls_keep_table_in_sync ops :
  all_return heap ops Unexported.New →
  settled (after heap ops Unexported.New)
  ∧ in_sync heap (after heap ops Unexported.New).
Proof.
  intros Hret.
  destruct (New_consistent heap) as [Hs Hy].
  by apply all_return_consistent.
Qed.

(** After [AddEndpoint(e)] the pointer is in the list, also when the call
    was refused or panicked; the call returns an error exactly when the
    pointer was there before, the error being "endpoint already added"; and a
    second [AddEndpoint(e)] is always refused. *)
Theorem AddEndpoint_registers_once endpoint dhs :
  endpoint ∈ Unexported.Endpoints
               (Go.post (Unexported.AddEndpoint heap endpoint dhs))
  ∧ (∀ msg,
       Go.res (Unexported.AddEndpoint heap endpoint dhs) = Go.Returns (Some msg)
       ↔ endpoint ∈ Unexported.Endpoints dhs ∧ msg = "endpoint already added")
  ∧ Unexported.AddEndpoint heap endpoint
      (Go.post (Unexported.AddEndpoint heap endpoint dhs))
    = Go.Run (Go.Returns (Some "endpoint already added"))
        (Go.post (Unexported.AddEndpoint heap endpoint dhs)) [].
Proof.
  assert (endpoint ∈ Unexported.Endpoints
                       (Go.post (Unexported.AddEndpoint heap endpoint dhs)))
    as Hin.
  { destruct (decide (endpoint ∈ Unexported.Endpoints dhs)) as [Hin|Hout].
    - by rewrite AddEndpoint_present.
    - rewrite AddEndpoint_absent, then_reload_Endpoints by done.
      apply elem_of_app. right. by left. }
  split_and!; [done| |by apply AddEndpoint_present].
  intros msg.
  destruct (decide (endpoint ∈ Unexported.Endpoints dhs)) as [Hin'|Hout].
  - rewrite AddEndpoint_present by done. cbn [Go.res]. split.
    + by intros [= <-].
    + by intros [_ ->].
  - rewrite AddEndpoint_absent by done. split.
    + intros Hres. by apply then_reload_no_error in Hres.
    + by intros [? _].
Qed.

Lemma filter_other_absent endpoint l :
  endpoint ∉ l → filter (λ x, x ≠ endpoint) l = l.
Proof.
  induction l as [|p l IH]; [done|].
  intros [Hne Hout]%not_elem_of_cons.
  rewrite filter_cons_True by done. by rewrite IH.
Qed.

(** On a list without duplicates [DelEndpoint(e)] leaves exactly the entries
    other than [e], in their order, whether it returns nil, returns
    "endpoint not found" or panics in the rebuild. *)
Theorem DelEndpoint_keeps_the_others_in_order endpoint dhs :
  NoDup (Unexported.Endpoints dhs) →
  Unexported.Endpoints (Go.post (Unexported.DelEndpoint heap endpoint dhs))
  = filter (λ x, x ≠ endpoint) (Unexported.Endpoints dhs).
Proof.
  intros Hnd.
  destruct (decide (endpoint ∈ Unexported.Endpoints dhs)) as [Hin|Hout].
  - apply search_present in Hin as (l1 & l2 & Hl & Hout & _).
    rewrite (DelEndpoint_present _ _ _ l1 l2), then_reload_Endpoints by done.
    rewrite Hl in Hnd |- *.
    apply NoDup_app in Hnd as (_ & _ & [Hout2 _]%NoDup_cons).
    rewrite filter_app, filter_cons_False by (by intros ?).
    by rewrite !filter_other_absent.
  - rewrite DelEndpoint_absent by done. cbn [Go.post].
    by rewrite filter_other_absent.
Qed.

End RegistryMore.

Section RegistryComposition.
Context {Func : Type} {lib : mux.Library} (heap : positive → Endpoint Func).
Implicit Types (l : list Go.pointer) (endpoint : Go.pointer).
Implicit Types (dhs : @Unexported.DynHttpSrv Func).

(** The registry holding list [l] with its table installed. *)
Local Abbreviation installed l :=
  (Unexported.mkDynHttpSrv
     (Unexported.mkSwappableRouter false (Spec.table (pointees heap l))) l).

Lemma installed_settled l : Go.null ∉ l → settled (installed l).
Proof. by split. Qed.



End RegistryComposition.

Section TableGrowth.
Context {Func : Type} {lib : mux.Library} (heap : positive → Endpoint Func).
Implicit Types (l : list Go.pointer) (e : Endpoint Func).
Implicit Types (r : mux.Router Func) (dhs : @Unexported.DynHttpSrv Func).


(** The table of the spec, by parts. *)
Lemma table_routes_app (es1 es2 : list (Endpoint Func)) :
  mux.routes (Spec.table (es1 ++ es2))
  = mux.routes (Spec.table es1) ++ mux.routes (Spec.table es2).
Proof. apply bind_app. Qed.



End TableGrowth.

(** ** More on a request racing with a swap *)

Section RaceMore.
Context {Func Request Response : Type}.
Context (mux_ServeHTTP : mux.Router Func → Request → Response).
Context (r : Request) (oldRouter newRouter : mux.Router Func).

Local Abbreviation step := (Race.step mux_ServeHTTP r newRouter).
Local Abbreviation run := (Race.run mux_ServeHTTP r newRouter).
Local Abbreviation consistent :=
  (Race.consistent mux_ServeHTTP r newRouter oldRouter).
Implicit Types (c : @Race.config Func Request Response).

Lemma run_invariant (P : Race.config → Prop) schedule c c' :
  (∀ t c1 c2, P c1 → step t c1 = Some c2 → P c2) →
  P c → run schedule c = Some c' → P c'.
Proof.
  intros Hstep. revert c.
  induction schedule as [|t rest IH]; intros c HP Hrun; cbn in Hrun.
  - by injection Hrun as <-.
  - destruct (step t c) as [c1|] eqn:Hc1; [|done].
    apply (IH c1); [|done]. by apply (Hstep t c).
Qed.

Lemma step_remaining t c c' :
  step t c = Some c' → Race.remaining c = S (Race.remaining c').
Proof.
  destruct c as [[m rt] pc sw tr]. destruct t; cbn.
  - destruct pc, m; cbn; intros [= <-]; reflexivity.
  - destruct sw, m; cbn; intros [= <-]; cbn; lia.
Qed.

Lemma run_remaining schedule c c' :
  run schedule c = Some c' →
  Race.remaining c = (length schedule + Race.remaining c')%nat.
Proof.
  revert c. induction schedule as [|t rest IH]; intros c Hrun; cbn in Hrun.
  - by injection Hrun as <-.
  - destruct (step t c) as [c1|] eqn:Hc1; [|done].
    rewrite (step_remaining t c c1 Hc1), (IH c1 Hrun). reflexivity.
Qed.

Lemma finished_remaining c :
  Race.finished c = true ↔ Race.remaining c = 0%nat.
Proof. destruct c as [sh pc sw tr]. by destruct pc, sw. Qed.

Lemma step_held_at t c c' :
  Unexported.router (Race.shared c) = held_at oldRouter newRouter (Race.swp c) →
  step t c = Some c' →
  Unexported.router (Race.shared c')
  = held_at oldRouter newRouter (Race.swp c').
Proof.
  destruct c as [[m rt] pc sw tr]. destruct t; cbn.
  - destruct pc, m; cbn; intros Hrt [= <-]; done.
  - destruct sw, m; cbn; intros Hrt [= <-]; done.
Qed.

(** The two calls are never both between their [Lock] and [Unlock], and the
    mutex is locked exactly while one of them is; the shared field holds
    [oldRouter] until the assignment of [swap] and [newRouter] from then on;
    every interleaving has at most the eight statements of the two calls,
    and has run both calls to their end exactly when it has eight; at the end
    the mutex is free and the dispatcher holds [newRouter]. *)
Theorem race_excludes_and_terminates schedule c :
  run schedule (Race.start oldRouter) = Some c →
  Race.serving_locked (Race.serve c) && Race.swapping_locked (Race.swp c) = false
  ∧ Unexported.mu (Race.shared c)
    = Race.serving_locked (Race.serve c) || Race.swapping_locked (Race.swp c)
  ∧ Unexported.router (Race.shared c)
    = held_at oldRouter newRouter (Race.swp c)
  ∧ (length schedule + Race.remaining c = 8)%nat
  ∧ (Race.finished c = true ↔ length schedule = 8%nat)
  ∧ (Race.finished c = true →
     Race.shared c = Unexported.mkSwappableRouter false newRouter).
Proof.
  intros Hrun.
  assert (consistent c) as (_ & _ & Hmu & Hexcl & _).
  { apply (run_consistent _ _ _ _ schedule (Race.start oldRouter)); [|done].
    apply start_consistent. }
  assert (Unexported.router (Race.shared c)
          = held_at oldRouter newRouter (Race.swp c)) as Hheld.
  { apply (run_invariant
             (λ c, Unexported.router (Race.shared c)
                   = held_at oldRouter newRouter (Race.swp c))
             schedule (Race.start oldRouter)); [|done..].
    intros t c1 c2. apply step_held_at. }
  pose proof (run_remaining _ _ _ Hrun) as Hrem.
  change (Race.remaining (Race.start oldRouter)) with 8%nat in Hrem.
  split_and!; [done..|lia| |].
  - rewrite finished_remaining. lia.
  - intros Hfin. destruct c as [[m rt] pc sw tr].
    destruct pc, sw; try done. cbn in Hmu, Hheld. by subst.
Qed.

End RaceMore.

(** ** The copy with exported names, over sequences of calls *)

Section ExportedSequences.
Context {Func : Type} {lib : mux.Library} (heap : positive → Endpoint Func).

Lemma perform_exported_perform o (dhs : @Unexported.DynHttpSrv Func) :
  perform_exported heap o (exported dhs)
  = seen_as exported (perform heap o dhs).
Proof.
  destruct o; [apply AddEndpoint_AddEndpoint|apply DelEndpoint_DelEndpoint].
Qed.

Lemma after_exported_after ops (dhs : @Unexported.DynHttpSrv Func) :
  after_exported heap ops (exported dhs) = exported (after heap ops dhs).
Proof.
  revert dhs. induction ops as [|o ops IH]; intros dhs; [done|].
  cbn. rewrite perform_exported_perform. apply IH.
Qed.

Lemma after_New_NoDup ops :
  NoDup (Unexported.Endpoints (after heap ops (@Unexported.New Func))).
Proof.
  induction ops as [|o ops IH] using rev_ind.
  - apply NoDup_nil_2.
  - rewrite after_snoc. by apply perform_NoDup.
Qed.

(** Any sequence of [AddEndpoint] and [DelEndpoint] calls on a new registry
    of the second file leaves the registry the same sequence leaves in the
    first file, up to the renaming; its list never holds a pointer twice. *)
Theorem exported_registry_follows_sequences ops :
  after_exported heap ops Exported.New
  = exported (after heap ops Unexported.New)
  ∧ NoDup (Exported.Endpoints (after_exported heap ops Exported.New)).
Proof.
  assert (after_exported heap ops Exported.New
          = exported (after heap ops Unexported.New)) as Heq.
  { apply (after_exported_after ops Unexported.New). }
  split; [done|]. rewrite Heq. apply after_New_NoDup.
Qed.

End ExportedSequences.

(** ** The goroutine that stops the server *)

Section WatcherFacts.
Implicit Types (polls : list Watcher.ctx_err).

Lemma watch_not_canceled polls :
  Watcher.Canceled ∉ polls →
  Watcher.watch polls = (replicate (length polls) Watcher.Sleep, false).
Proof.
  induction polls as [|err polls IH]; [done|].
  intros [Hne Hout]%not_elem_of_cons. cbn.
  rewrite IH by done. by destruct err.
Qed.

(** Lines 65-73.  The loop calls [Shutdown] at the first poll that reads
    [context.Canceled], once, after one sleep per earlier poll, and leaves;
    as long as no poll reads [context.Canceled] it sleeps after every poll,
    never calls [Shutdown] and stays in the loop. *)
Theorem watch_shuts_down_at_first_cancel :
  (∀ polls,
     Watcher.Canceled ∉ polls →
     Watcher.watch polls = (replicate (length polls) Watcher.Sleep, false))
  ∧ (∀ before later,
       Watcher.Canceled ∉ before →
       Watcher.watch (before ++ Watcher.Canceled :: later)
       = (replicate (length before) Watcher.Sleep ++ [Watcher.Shutdown], true)).
Proof.
  split; [apply watch_not_canceled|].
  intros before later. induction before as [|err before IH]; [done|].
  intros [Hne Hout]%not_elem_of_cons. cbn.
  rewrite IH by done. by destruct err.
Qed.

(** A context that ends by its deadline reads [context.DeadlineExceeded]
    from then on, never [context.Canceled]: the loop never calls [Shutdown]
    for it and never ends. *)
Theorem deadline_never_shuts_down polls :
  Watcher.well_behaved polls →
  Watcher.DeadlineExceeded ∈ polls →
  Watcher.watch polls = (replicate (length polls) Watcher.Sleep, false).
Proof.
  intros Hwb Hin. apply watch_not_canceled.
  induction polls as [|err polls IH]; [by apply not_elem_of_nil|].
  destruct err; cbn in Hwb.
  - apply elem_of_cons in Hin as [|Hin]; [done|].
    apply not_elem_of_cons. split; [done|]. by apply IH.
  - apply elem_of_cons in Hin as [|Hin]; [done|].
    rewrite Forall_forall in Hwb. by apply Hwb in Hin.
  - apply not_elem_of_cons. split; [done|].
    rewrite Forall_forall in Hwb. intros Hc. by apply Hwb in Hc.
Qed.

End WatcherFacts.

(** ** The further properties at work on the sample data *)

Section MoreWitnesses.
Import Sample.

Lemma registry_NoDup : NoDup (Unexported.Endpoints registry).
Proof. compute_done. Defined.

Lemma search_finds_first_occurrence_witness :
  pB ∈ [pA; pB; pC; pB]
  ∧ ∃ i : nat,
      Unexported.search pB 0 [pA; pB; pC; pB] = Z.of_nat i
      ∧ [pA; pB; pC; pB] !! i = Some pB.
Proof.
  assert (pB ∈ [pA; pB; pC; pB]) as Hin by compute_done.
  split; [exact Hin|].
  destruct (proj2 (search_finds_first_occurrence pB [pA; pB; pC; pB]) Hin)
    as (i & Hpos & Hlook & _).
  by exists i.
Defined.

Lemma returning_calls_keep_table_in_sync_witness :
  all_return heap [Add pA; Del pC; Add pB; Add pA; Del pA] Unexported.New
  ∧ in_sync heap
      (after heap [Add pA; Del pC; Add pB; Add pA; Del pA] Unexported.New).
Proof.
  assert (all_return heap [Add pA; Del pC; Add pB; Add pA; Del pA]
            Unexported.New) as Hret.
  { cbn. repeat (split; [by eexists|]). exact I. }
  split; [exact Hret|].
  exact (proj2 (returning_calls_keep_table_in_sync heap _ Hret)).
Defined.

Lemma DelEndpoint_keeps_the_others_in_order_witness :
  NoDup (Unexported.Endpoints registry)
  ∧ Unexported.Endpoints (Go.post (Unexported.DelEndpoint heap pA registry))
    = filter (λ x, x ≠ pA) (Unexported.Endpoints registry).
Proof.
  split; [exact registry_NoDup|].
  exact (DelEndpoint_keeps_the_others_in_order heap pA registry registry_NoDup).
Defined.





Lemma race_excludes_and_terminates_witness :
  Race.run first_route request newTable [Race.dispatcher; Race.swapper]
    (Race.start oldTable) = Some midway
  ∧ (length [Race.dispatcher; Race.swapper] + Race.remaining midway = 8)%nat
  ∧ Unexported.router (Race.shared midway) = oldTable.
Proof.
  split; [reflexivity|].
  destruct (race_excludes_and_terminates first_route request oldTable newTable
              [Race.dispatcher; Race.swapper] midway eq_refl)
    as (_ & _ & Hheld & Hlen & _).
  split; [exact Hlen|exact Hheld].
Defined.

Lemma watch_shuts_down_at_first_cancel_witness :
  (Watcher.Canceled ∉ [Watcher.no_error; Watcher.no_error])
  ∧ Watcher.watch Scenario.cancelled
    = ([Watcher.Sleep; Watcher.Sleep; Watcher.Shutdown], true).
Proof.
  assert (Watcher.Canceled ∉ [Watcher.no_error; Watcher.no_error]) as Hout.
  { intros Hin. apply elem_of_cons in Hin as [Hin|Hin]; [done|].
    by apply list_elem_of_singleton in Hin. }
  split; [exact Hout|].
  exact (proj2 watch_shuts_down_at_first_cancel
           [Watcher.no_error; Watcher.no_error] [Watcher.Canceled] Hout).
Defined.

Lemma deadline_never_shuts_down_witness :
  Watcher.well_behaved Scenario.expired
  ∧ Watcher.DeadlineExceeded ∈ Scenario.expired
  ∧ Watcher.watch Scenario.expired
    = ([Watcher.Sleep; Watcher.Sleep; Watcher.Sleep], false).
Proof.
  assert (Watcher.well_behaved Scenario.expired) as Hwb.
  { cbn. by repeat constructor. }
  assert (Watcher.DeadlineExceeded ∈ Scenario.expired) as Hin.
  { right. by left. }
  split_and!; [exact Hwb|exact Hin|].
  exact (deadline_never_shuts_down Scenario.expired Hwb Hin).
Defined.

End MoreWitnesses.
